(** * S3 manager backend (src/main.ts): a shallow embedding

    The server is a thin proxy: every route parses a request body, builds an
    S3 client with [createS3Client], sends one command (a short sequence for
    deletes, one upload per file for uploads) and turns the outcome into an
    HTTP response.  The embedding follows that shape:

    - [JS]: the JSON values the handlers receive (the bodies are typed [any]
      in the source), with truthiness, property reads and destructuring;
    - [createS3Client], the command constructors and the seven handlers, as
      computations in a small monad that threads the outside world (storage
      backend, file system), records every SDK call and propagates
      exceptions;
    - the calls of the async callback of the upload route, cut at their
      awaits and run as [map] and [Promise.all] run them: each call to its
      first await in the order of the files, then one pending call at a
      time, in the order the event loop resumes them;
    - the routing table [api].

    What is not in the repository is a parameter: the storage backend behind
    [s3Client.send], the upload helper, the file system, [JSON.parse], the
    engine's number printing, the multipart reader of the web framework and
    the order in which the event loop resumes the pending calls. *)

From Stdlib Require Import Floats.SpecFloat.
From stdpp Require Import gmap strings list fin_maps pretty.

#[local] Set Warnings "-register-all".
#[local] Open Scope string_scope.
#[local] Open Scope list_scope.

(** ** JavaScript values and exceptions *)

Module JS.

(** A parsed JSON value, plus [undefined] (the result of reading a
    property that is not there).  Numbers are IEEE doubles. *)
Inductive value : Type :=
| VUndefined
| VNull
| VBool (b : bool)
| VNumber (x : spec_float)
| VString (s : string)
| VArray (elements : list value)
| VObject (properties : gmap string value).

(** An [Error] object: the handlers read nothing but [error.message]. *)
Record exn : Type := mkExn { name : string; message : string }.

Definition new_Error (msg : string) : exn := mkExn "Error" msg.
Definition new_TypeError (msg : string) : exn := mkExn "TypeError" msg.

(** The completion of an evaluation: a value, or a thrown exception. *)
Inductive completion (A : Type) : Type :=
| Normal (a : A)
| Throw (e : exn).
Arguments Normal {A} a.
Arguments Throw {A} e.

Definition is_normal {A} (c : completion A) : bool :=
  match c with Normal _ => true | Throw _ => false end.

(** ToBoolean.  [if (x)], [!x] and [x || y] go through it. *)
Definition truthy (v : value) : bool :=
  match v with
  | VUndefined | VNull => false
  | VBool b => b
  | VNumber (S754_zero _) | VNumber S754_nan => false
  | VNumber _ => true
  | VString "" => false
  | VString _ => true
  | VArray _ | VObject _ => true
  end.

Definition nullish (v : value) : bool :=
  match v with VUndefined | VNull => true | _ => false end.

(** [v.k] for a [v] that is neither [null] nor [undefined].  The names the
    handlers read (config, region, accessKeyId, secretAccessKey, endpoint,
    bucket, bucketName, prefix, key, items, isBucket, Key, Name, Buckets,
    Contents, CommonPrefixes) are on no prototype, so a read is an own
    property lookup, and [undefined] on a primitive or an array. *)
Definition get (v : value) (k : string) : value :=
  match v with
  | VObject properties => default VUndefined (properties !! k)
  | _ => VUndefined
  end.

Definition typeof_nullish (v : value) : string :=
  match v with VNull => "null" | _ => "undefined" end.

(** [v.k] in general: reading a property of [null] or [undefined] throws
    (the message is V8's, the engine of Deno). *)
Definition member (v : value) (k : string) : completion value :=
  if nullish v
  then Throw (new_TypeError ("Cannot read properties of " +:+ typeof_nullish v
                             +:+ " (reading '" +:+ k +:+ "')"))
  else Normal (get v k).

(** [const { k, ... } = v] where [var] is the name of the variable [v]:
    destructuring [null] or [undefined] throws, anything else binds each
    name to [get v name]. *)
Definition destructure (v : value) (var k : string) : completion unit :=
  if nullish v
  then Throw (new_TypeError ("Cannot destructure property '" +:+ k +:+ "' of '"
                             +:+ var +:+ "' as it is " +:+ typeof_nullish v +:+ "."))
  else Normal tt.

(** [a || b] on values. *)
Definition or_else (a b : value) : value := if truthy a then a else b.

(** [a !== b] against a string literal: strict inequality holds unless
    [a] is that very string. *)
Definition strict_neq_string (a : value) (lit : string) : bool :=
  match a with
  | VString s => negb (String.eqb s lit)
  | _ => true
  end.

Definition object (fields : list (string * value)) : value :=
  VObject (list_to_map fields).

End JS.
Import JS.

(** ** The SDK client and its commands *)

(** [new S3Client(clientConfig)]: the client is the capability for the
    configuration it was built from. *)
Record S3Client : Type := new_S3Client { configuration : value }.

Definition missing_configuration : string :=
  "Missing AWS configuration. Region, Access Key, and Secret Key are required.".

(** main.ts, lines 28-49. *)
Definition createS3Client (config : value) : completion S3Client :=
  if negb (truthy config)
     || negb (truthy (get config "region"))
     || negb (truthy (get config "accessKeyId"))
     || negb (truthy (get config "secretAccessKey"))
  then Throw (new_Error missing_configuration)
  else
    let clientConfig : gmap string value :=
      {[ "region" := get config "region";
         "credentials" :=
           VObject {[ "accessKeyId" := get config "accessKeyId";
                      "secretAccessKey" := get config "secretAccessKey" ]} ]} in
    let clientConfig :=
      if truthy (get config "endpoint")
      then <["forcePathStyle" := VBool true]>
             (<["endpoint" := get config "endpoint"]> clientConfig)
      else clientConfig in
    Normal (new_S3Client (VObject clientConfig)).

(** A field that is absent, or the empty string. *)
Definition absent_or_empty (v : value) : Prop :=
  v = VUndefined \/ v = VString "".

(** A field that is a non-empty string. *)
Definition non_empty_string (v : value) : Prop :=
  exists s, v = VString s /\ s <> "".

(** The commands of @aws-sdk/client-s3 the server builds, each with the
    input object it is constructed from. *)
Inductive Command : Type :=
| ListBucketsCommand (input : value)
| ListObjectsV2Command (input : value)
| CreateBucketCommand (input : value)
| PutObjectCommand (input : value)
| DeleteObjectsCommand (input : value)
| DeleteBucketCommand (input : value).

Definition is_DeleteBucket (command : Command) : bool :=
  match command with DeleteBucketCommand _ => true | _ => false end.

(** The [params] of [new Upload({ client, params })] (@aws-sdk/lib-storage). *)
Record UploadParams : Type := mkUploadParams {
  Bucket : option string;
  Key : string;
  Body : list Byte.byte;
  ContentType : string;
  ChecksumMode : string
}.

(** ** The multipart body of the web framework (oak) *)

(** One file part: held in memory ([content]) or spooled to a temporary
    file ([filename]). *)
Record FormDataFile : Type := mkFormDataFile {
  content : option (list Byte.byte);
  contentType : string;
  filename : option string;
  originalName : string
}.

Record FormDataBody : Type := mkFormDataBody {
  fields : gmap string string;
  files : option (list FormDataFile)
}.

(** The options of [read]; the upload route sets this one. *)
Record FormDataReadOptions : Type := mkReadOptions { maxFileSize : N }.

(** [formDataReader.read(options)]: the parsed parts, or the reader's
    exception (a malformed body, a part above [maxFileSize], ...). *)
Record FormDataReader : Type := mkFormDataReader {
  read : FormDataReadOptions -> completion FormDataBody
}.

(** [ctx.request]: what awaiting [body({ type: 'json' }).value] and
    [body({ type: 'form-data' }).value] yields for this request. *)
Record Request : Type := mkRequest {
  json : completion value;
  form_data : completion FormDataReader
}.

(** [ctx.response] once the handler is done; a response whose body was set
    without a status is a 200. *)
Record Response : Type := mkResponse { status : nat; body : value }.

(** ** The outside world *)

(** Everything the handlers reach outside the repository, over a state [W]
    of the world (the storage backend, the file system).  [schedule] is the
    order in which the event loop resumes the pending calls of async
    functions: turn [n] of the loop goes to the pending call number
    [schedule n], counted in the array of the calls modulo the number of
    those still pending. *)
Class Runtime (W : Type) : Type := {
  s3_send : S3Client -> Command -> W -> completion value * W;
  upload_done : S3Client -> UploadParams -> W -> completion unit * W;
  Deno_readFile : string -> W -> completion (list Byte.byte) * W;
  JSON_parse : string -> completion value;
  Number_toString : spec_float -> string;
  schedule : nat -> nat
}.

(** What a handler did to the world, in order. *)
Inductive effect : Type :=
| Sent (client : S3Client) (command : Command) (outcome : completion value)
| Uploaded (client : S3Client) (params : UploadParams) (outcome : completion unit)
| FileRead (path : string) (outcome : completion (list Byte.byte)).

Definition is_Sent (f : effect) : bool :=
  match f with Sent _ _ _ => true | _ => false end.

Definition is_Uploaded (f : effect) : bool :=
  match f with Uploaded _ _ _ => true | _ => false end.

Definition sent_command (f : effect) : option Command :=
  match f with Sent _ command _ => Some command | _ => None end.

(** The effect is a call that failed with [e]. *)
Definition failed_with (f : effect) (e : exn) : Prop :=
  match f with
  | Sent _ _ outcome => outcome = Throw e
  | Uploaded _ _ outcome => outcome = Throw e
  | FileRead _ outcome => outcome = Throw e
  end.

Definition succeeded (f : effect) : bool :=
  match f with
  | Sent _ _ outcome => is_normal outcome
  | Uploaded _ _ outcome => is_normal outcome
  | FileRead _ outcome => is_normal outcome
  end.

(** ** Handler computations: world passing, a log of effects, exceptions *)

Definition M (W A : Type) : Type := W -> completion A * list effect * W.

Definition ret {W A} (a : A) : M W A := fun w => (Normal a, [], w).

Definition throw {W A} (e : exn) : M W A := fun w => (Throw e, [], w).

Definition lift {W A} (c : completion A) : M W A := fun w => (c, [], w).

Definition bind {W A C} (m : M W A) (k : A -> M W C) : M W C :=
  fun w =>
    match m w with
    | (Normal a, log, w1) =>
        match k a w1 with (r, log2, w2) => (r, log ++ log2, w2) end
    | (Throw e, log, w1) => (Throw e, log, w1)
    end.

Notation "'let*' x ':=' m 'in' k" := (bind m (fun x => k))
  (at level 10, x name, m at level 100, k at level 200).

(** [try { m } catch (error) { h error }] *)
Definition try_catch {W A} (m : M W A) (h : exn -> M W A) : M W A :=
  fun w =>
    match m w with
    | (Normal a, log, w1) => (Normal a, log, w1)
    | (Throw e, log, w1) =>
        match h e w1 with (r, log2, w2) => (r, log ++ log2, w2) end
    end.

(** [for (const x of l) { body x }] *)
Fixpoint for_of {W A} (l : list A) (body : A -> M W unit) : M W unit :=
  match l with
  | [] => ret tt
  | x :: rest => let* _ := body x in for_of rest body
  end.

(** A route handler: the try block computes the response body, the catch
    block turns the exception into the failure response. *)
Definition handle {W} (try : M W value) (catch : exn -> Response)
  : W -> Response * list effect * W :=
  fun w =>
    match try w with
    | (Normal b, log, w1) => (mkResponse 200 b, log, w1)
    | (Throw error, log, w1) => (catch error, log, w1)
    end.

(** [{ error: error.message }] with status 500: the catch block of every
    route but /connect. *)
Definition internal_error (error : exn) : Response :=
  mkResponse 500 (object [("error", VString (message error))]).

(** ** Async functions *)

(** A call of an async function, cut at its awaits: it returns or throws,
    or it awaits an operation on the outside world and goes on with the
    outcome of that operation. *)
Inductive async (A : Type) : Type :=
| Return (r : completion A)
| Await_readFile (path : string) (k : completion (list Byte.byte) -> async A)
| Await_done (client : S3Client) (params : UploadParams) (k : completion unit -> async A).

Arguments Return {A} r.
Arguments Await_readFile {A} path k.
Arguments Await_done {A} client params k.

(** The promise of a call: pending, with what is left of the call to run
    at its next turn, or settled. *)
Inductive promise (A : Type) : Type :=
| Pending (rest : async A)
| Settled (r : completion A).

Arguments Pending {A} rest.
Arguments Settled {A} r.

Definition outcome {A} (p : promise A) : option (completion A) :=
  match p with
  | Settled r => Some r
  | Pending _ => None
  end.

(** The pending promises of an array, with their positions. *)
Definition pending {A} (promises : list (promise A)) : list (nat * async A) :=
  omap id
    (imap (fun i p =>
             match p with
             | Pending rest => Some (i, rest)
             | Settled _ => None
             end)
          promises).

(** ** The routes of main.ts *)

Section Handlers.
Context {W : Type} {runtime : Runtime W}.

(** [await s3Client.send(command)] *)
Definition send (s3Client : S3Client) (command : Command) : M W value :=
  fun w =>
    match s3_send s3Client command w with
    | (outcome, w1) => (outcome, [Sent s3Client command outcome], w1)
    end.

(** [await new Upload({ client, params }).done()] *)
Definition Upload_done (client : S3Client) (params : UploadParams) : M W unit :=
  fun w =>
    match upload_done client params w with
    | (outcome, w1) => (outcome, [Uploaded client params outcome], w1)
    end.

(** [await Deno.readFile(path)] *)
Definition readFile (path : string) : M W (list Byte.byte) :=
  fun w =>
    match Deno_readFile path w with
    | (outcome, w1) => (outcome, [FileRead path outcome], w1)
    end.

(** ToString, as a template literal applies it.  An array joins its
    elements with commas ([null] and [undefined] print as nothing); a plain
    object prints as [object Object] unless it carries a property named
    toString, which in parsed JSON is never callable, so the conversion
    throws. *)
Fixpoint ToString (v : value) : completion string :=
  match v with
  | VUndefined => Normal "undefined"
  | VNull => Normal "null"
  | VBool b => Normal (if b then "true" else "false")
  | VNumber x => Normal (Number_toString x)
  | VString s => Normal s
  | VArray elements =>
      (fix join (l : list value) : completion string :=
         match l with
         | [] => Normal ""
         | x :: rest =>
             match (if nullish x then Normal "" else ToString x) with
             | Throw e => Throw e
             | Normal s =>
                 match rest with
                 | [] => Normal s
                 | _ => match join rest with
                        | Throw e => Throw e
                        | Normal t => Normal (s +:+ "," +:+ t)
                        end
                 end
             end
         end) elements
  | VObject properties =>
      match properties !! "toString" with
      | None => Normal "[object Object]"
      | Some _ => Throw (new_TypeError "Cannot convert object to primitive value")
      end
  end.

(** ToString of a form field that may be missing. *)
Definition field_string (field : option string) : string :=
  match field with Some s => s | None => "undefined" end.

Definition field_value (field : option string) : value :=
  match field with Some s => VString s | None => VUndefined end.

(** POST /api/connect (lines 56-67). *)
Definition connect (ctx : Request) : W -> Response * list effect * W :=
  handle
    (let* body := lift (json ctx) in
     let* config := lift (member body "config") in
     let* s3Client := lift (createS3Client config) in
     let* _ := send s3Client (ListBucketsCommand (object [])) in
     ret (object [("success", VBool true);
                  ("message", VString "Connection successful")]))
    (fun error =>
       mkResponse 400 (object [("success", VBool false);
                               ("error", VString (message error))])).

(** POST /api/buckets (lines 70-81). *)
Definition buckets (ctx : Request) : W -> Response * list effect * W :=
  handle
    (let* body := lift (json ctx) in
     let* config := lift (member body "config") in
     let* s3Client := lift (createS3Client config) in
     let* data := send s3Client (ListBucketsCommand (object [])) in
     let* Buckets := lift (member data "Buckets") in
     ret (object [("buckets", or_else Buckets (VArray []))]))
    internal_error.

(** POST /api/objects (lines 84-104). *)
Definition objects (ctx : Request) : W -> Response * list effect * W :=
  handle
    (let* body := lift (json ctx) in
     let* _ := lift (destructure body "body" "config") in
     let config := get body "config" in
     let bucket := get body "bucket" in
     let prefix := get body "prefix" in
     let* s3Client := lift (createS3Client config) in
     let command :=
       ListObjectsV2Command
         (object [("Bucket", bucket); ("Prefix", prefix); ("Delimiter", VString "/")]) in
     let* data := send s3Client command in
     let* Contents := lift (member data "Contents") in
     let* CommonPrefixes := lift (member data "CommonPrefixes") in
     ret (object [("contents", or_else Contents (VArray []));
                  ("commonPrefixes", or_else CommonPrefixes (VArray []))]))
    internal_error.

(** The command of the bucket-creation route (lines 112-116). *)
Definition create_bucket_command (bucketName region : value) : Command :=
  CreateBucketCommand
    (object [("Bucket", bucketName);
             ("CreateBucketConfiguration",
              if strict_neq_string region "us-east-1"
              then object [("LocationConstraint", region)]
              else VUndefined)]).

(** POST /api/buckets/create (lines 107-124). *)
Definition buckets_create (ctx : Request) : W -> Response * list effect * W :=
  handle
    (let* body := lift (json ctx) in
     let* _ := lift (destructure body "body" "config") in
     let config := get body "config" in
     let bucketName := get body "bucketName" in
     let region := get body "region" in
     let* s3Client := lift (createS3Client config) in
     let command := create_bucket_command bucketName region in
     let* _ := send s3Client command in
     let* name := lift (ToString bucketName) in
     ret (object [("success", VBool true);
                  ("message", VString ("Bucket " +:+ name +:+ " created."))]))
    internal_error.

(** POST /api/folders/create (lines 127-144). *)
Definition folders_create (ctx : Request) : W -> Response * list effect * W :=
  handle
    (let* body := lift (json ctx) in
     let* _ := lift (destructure body "body" "config") in
     let config := get body "config" in
     let bucket := get body "bucket" in
     let key := get body "key" in
     let* s3Client := lift (createS3Client config) in
     let command :=
       PutObjectCommand (object [("Bucket", bucket); ("Key", key); ("Body", VString "")]) in
     let* _ := send s3Client command in
     let* name := lift (ToString key) in
     ret (object [("success", VBool true);
                  ("message", VString ("Folder " +:+ name +:+ " created."))]))
    internal_error.

Definition rejections {A} (settled : list (completion A)) : list exn :=
  omap (fun c => match c with Throw e => Some e | Normal _ => None end) settled.

(** What [Promise.all] settles to, given the outcomes of its promises in
    the order in which they settled: fulfilled when all are, otherwise
    rejected with the reason of the first rejection. *)
Definition first_rejection {A} (settled : list (completion A)) : completion unit :=
  match rejections settled with
  | [] => Normal tt
  | e :: _ => Throw e
  end.

(** One turn of a call.  Left with a result, the call ends and its promise
    settles.  Left at an await, it issues the awaited operation, whose
    outcome the world decides, and is pending again, to go on from that
    outcome at its next turn.  The log has an operation where the call
    issues it. *)
Definition resume {A} (rest : async A) : W -> promise A * list effect * W :=
  fun w =>
    match rest with
    | Return r => (Settled r, [], w)
    | Await_readFile path k =>
        match Deno_readFile path w with
        | (data, w1) => (Pending (k data), [FileRead path data], w1)
        end
    | Await_done client params k =>
        match upload_done client params w with
        | (result, w1) => (Pending (k result), [Uploaded client params result], w1)
        end
    end.

(** [array.map(async ...)]: the calls are made in the order of the array,
    and each runs to its first await (or to its end) before the next is
    made. *)
Fixpoint start_all {A} (calls : list (async A))
  : W -> list (promise A) * list effect * W :=
  fun w =>
    match calls with
    | [] => ([], [], w)
    | call :: rest =>
        match resume call w with
        | (p, log, w1) =>
            match start_all rest w1 with
            | (ps, log2, w2) => (p :: ps, log ++ log2, w2)
            end
        end
    end.

(** The event loop: while a promise is pending, the scheduler gives one
    of the pending calls its turn.  The outcomes of the promises that
    settle come in the order in which they do; [turns] bounds the number of
    turns. *)
Fixpoint event_loop {A} (turns turn : nat) (promises : list (promise A))
  : W -> list (completion A) * list effect * W :=
  fun w =>
    match turns, pending promises with
    | S turns, first :: others =>
        let next := nth (schedule turn mod length (first :: others)) (first :: others) first in
        match resume next.2 w with
        | (p, log, w1) =>
            match event_loop turns (S turn) (<[next.1 := p]> promises) w1 with
            | (settled, log2, w2) =>
                (option_list (outcome p) ++ settled, log ++ log2, w2)
            end
        end
    | _, _ => ([], [], w)
    end.

(** The calls of [array.map(async ...)] from the first to the settlement
    of their promises.  All the calls run, whatever becomes of the others:
    a call that rejects stops no other, and the log has what the others do
    after it as well.  The result has the outcomes in the order of
    settlement. *)
Definition settle_all {A} (turns : nat) (calls : list (async A))
  : W -> list (completion A) * list effect * W :=
  fun w =>
    match start_all calls w with
    | (promises, log, w1) =>
        match event_loop turns 0 promises w1 with
        | (settled, log2, w2) => (omap outcome promises ++ settled, log ++ log2, w2)
        end
    end.

(** [await Promise.all(array.map(async ...))]: rejected with the reason of
    the call that rejects first, fulfilled when every call is. *)
Definition Promise_all (turns : nat) (calls : list (async unit)) : M W unit :=
  fun w =>
    match settle_all turns calls w with
    | (settled, log, w1) => (first_rejection settled, log, w1)
    end.

(** The bytes of a file part (lines 165-175): the buffer when it is in
    memory, else the temporary file when there is one, else nothing. *)
Definition resolve (file : FormDataFile) : M W (option (list Byte.byte)) :=
  match content file with
  | Some data => ret (Some data)
  | None =>
      if truthy (field_value (filename file))
      then let* data := readFile (field_string (filename file)) in ret (Some data)
      else ret None
  end.

Definition upload_params (bucket path : option string) (file : FormDataFile)
    (fileData : list Byte.byte) : UploadParams :=
  {| Bucket := bucket;
     Key := field_string path +:+ originalName file;
     Body := fileData;
     ContentType := contentType file;
     ChecksumMode := "DISABLED" |}.

(** The callback of [filesToUpload.map] (lines 164-212), as one call of it
    runs from its start to its end. *)
Definition upload_file (s3Client : S3Client) (bucket path : option string)
    (file : FormDataFile) : M W unit :=
  let* fileData := resolve file in
  match fileData with
  | None => ret tt
  | Some data =>
      if (length data =? 0)%nat then ret tt
      else
        try_catch
          (Upload_done s3Client (upload_params bucket path file data))
          (fun uploadError =>
             throw (new_Error
                      ("Failed to upload " +:+ originalName file +:+ ": "
                       +:+ (if truthy (VString (message uploadError))
                            then message uploadError
                            else "Unknown S3 error"))))
  end.

(** The callback from the check of the bytes on (lines 177-211), cut at
    its await (line 204). *)
Definition upload_bytes (s3Client : S3Client) (bucket path : option string)
    (file : FormDataFile) (fileData : option (list Byte.byte)) : async unit :=
  match fileData with
  | None => Return (Normal tt)
  | Some data =>
      if (length data =? 0)%nat then Return (Normal tt)
      else
        Await_done s3Client (upload_params bucket path file data)
          (fun result =>
             match result with
             | Normal _ => Return (Normal tt)
             | Throw uploadError =>
                 Return (Throw (new_Error
                                  ("Failed to upload " +:+ originalName file +:+ ": "
                                   +:+ (if truthy (VString (message uploadError))
                                        then message uploadError
                                        else "Unknown S3 error"))))
             end)
  end.

(** The callback of [filesToUpload.map] cut at its two awaits (lines 173
    and 204), as the event loop runs it among the other calls. *)
Definition upload_task (s3Client : S3Client) (bucket path : option string)
    (file : FormDataFile) : async unit :=
  match content file with
  | Some data => upload_bytes s3Client bucket path file (Some data)
  | None =>
      if truthy (field_value (filename file))
      then Await_readFile (field_string (filename file))
             (fun read =>
                match read with
                | Normal data => upload_bytes s3Client bucket path file (Some data)
                | Throw e => Return (Throw e)
                end)
      else upload_bytes s3Client bucket path file None
  end.

(** A call on its own: every operation it awaits settles before anything
    else happens. *)
Fixpoint alone {A} (call : async A) : M W A :=
  match call with
  | Return r => lift r
  | Await_readFile path k =>
      fun w =>
        match Deno_readFile path w with
        | (data, w1) =>
            match alone (k data) w1 with
            | (r, log, w2) => (r, FileRead path data :: log, w2)
            end
        end
  | Await_done client params k =>
      fun w =>
        match upload_done client params w with
        | (result, w1) =>
            match alone (k result) w1 with
            | (r, log, w2) => (r, Uploaded client params result :: log, w2)
            end
        end
  end.

Definition upload_read_options : FormDataReadOptions :=
  {| maxFileSize := 100 * 1024 * 1024 |}.

(** POST /api/upload (lines 147-224).  The callback awaits twice at most,
    so two turns of the event loop for each file settle every promise. *)
Definition upload (ctx : Request) : W -> Response * list effect * W :=
  handle
    (let* formDataReader := lift (form_data ctx) in
     let* formData := lift (read formDataReader upload_read_options) in
     let* config := lift (JSON_parse (field_string (fields formData !! "config"))) in
     let bucket := fields formData !! "bucket" in
     let path := fields formData !! "path" in
     let* s3Client := lift (createS3Client config) in
     let filesToUpload := default [] (files formData) in
     let uploadPromises := map (upload_task s3Client bucket path) filesToUpload in
     let* _ := Promise_all (2 * length filesToUpload) uploadPromises in
     ret (object [("success", VBool true);
                  ("message", VString "All files processed.")]))
    internal_error.

(** [l.filter(callback)] where the callback may throw. *)
Fixpoint filter_array (callback : value -> completion bool) (l : list value)
  : completion (list value) :=
  match l with
  | [] => Normal []
  | item :: rest =>
      match callback item with
      | Throw e => Throw e
      | Normal keep =>
          match filter_array callback rest with
          | Throw e => Throw e
          | Normal kept => Normal (if keep then item :: kept else kept)
          end
      end
  end.

(** [v.filter(callback)] where [var] is the name of the variable [v]: only
    an array has a [filter] method. *)
Definition Array_filter (v : value) (var : string)
    (callback : value -> completion bool) : completion (list value) :=
  match v with
  | VArray elements => filter_array callback elements
  | _ =>
      match member v "filter" with
      | Throw e => Throw e
      | Normal _ => Throw (new_TypeError (var +:+ ".filter is not a function"))
      end
  end.

(** [(item) => item.isBucket] and [(item) => !item.isBucket] *)
Definition isBucket (item : value) : completion bool :=
  match member item "isBucket" with
  | Throw e => Throw e
  | Normal flag => Normal (truthy flag)
  end.

Definition not_isBucket (item : value) : completion bool :=
  match member item "isBucket" with
  | Throw e => Throw e
  | Normal flag => Normal (negb (truthy flag))
  end.

(** The batched command of the delete route (lines 240-244). *)
Definition delete_objects_command (bucket : value) (objectsToDelete : list value)
  : Command :=
  DeleteObjectsCommand
    (object [("Bucket", bucket);
             ("Delete",
              object [("Objects",
                       VArray (map (fun item => object [("Key", get item "Key")])
                                   objectsToDelete))])]).

Definition delete_bucket_command (b : value) : Command :=
  DeleteBucketCommand (object [("Bucket", get b "Name")]).

Definition bucket_name_required : string :=
  "Bucket name is required for deleting objects.".

(** POST /api/delete (lines 228-258). *)
Definition delete (ctx : Request) : W -> Response * list effect * W :=
  handle
    (let* body := lift (json ctx) in
     let* _ := lift (destructure body "body" "config") in
     let config := get body "config" in
     let bucket := get body "bucket" in
     let items := get body "items" in
     let* s3Client := lift (createS3Client config) in
     let* objectsToDelete := lift (Array_filter items "items" not_isBucket) in
     let* bucketsToDelete := lift (Array_filter items "items" isBucket) in
     let* _ :=
       if (0 <? length objectsToDelete)%nat
       then
         if negb (truthy bucket) then throw (new_Error bucket_name_required)
         else
           let* _ := send s3Client (delete_objects_command bucket objectsToDelete) in
           ret tt
       else ret tt in
     let* _ := for_of bucketsToDelete
                      (fun b => let* _ := send s3Client (delete_bucket_command b) in ret tt) in
     ret (object [("success", VBool true);
                  ("message", VString "Items deleted successfully.")]))
    internal_error.

(** The rest of the delete route once the request is parsed, the client is
    built and the items are partitioned (lines 237-252). *)
Definition delete_partitioned (s3Client : S3Client) (bucket : value)
    (objectsToDelete bucketsToDelete : list value) : M W value :=
  let* _ :=
    if (0 <? length objectsToDelete)%nat
    then
      if negb (truthy bucket) then throw (new_Error bucket_name_required)
      else
        let* _ := send s3Client (delete_objects_command bucket objectsToDelete) in
        ret tt
    else ret tt in
  let* _ := for_of bucketsToDelete
                   (fun b => let* _ := send s3Client (delete_bucket_command b) in ret tt) in
  ret (object [("success", VBool true);
               ("message", VString "Items deleted successfully.")]).

(** The routing table: [router.prefix('/api')] and the seven
    [router.post] registrations. *)
Definition routes : list (string * (Request -> W -> Response * list effect * W)) :=
  [ ("/api/connect", connect);
    ("/api/buckets", buckets);
    ("/api/objects", objects);
    ("/api/buckets/create", buckets_create);
    ("/api/folders/create", folders_create);
    ("/api/upload", upload);
    ("/api/delete", delete) ].

(** The handler a POST to [path] reaches, if any. *)
Definition api (path : string)
  : option (Request -> W -> Response * list effect * W) :=
  (fun found => snd (snd found))
    <$> list_find (fun route => fst route = path) routes.

End Handlers.

Arguments object : simpl never.
Arguments get : simpl never.
Arguments createS3Client : simpl never.

(** ** Worlds and requests for the examples *)

Definition valid_config : value :=
  object [("region", VString "eu-west-1");
          ("accessKeyId", VString "AKIAEXAMPLE");
          ("secretAccessKey", VString "secret")].

(** The client [createS3Client] builds from it. *)
Definition valid_client : S3Client :=
  new_S3Client
    (object [("region", VString "eu-west-1");
             ("credentials", object [("accessKeyId", VString "AKIAEXAMPLE");
                                     ("secretAccessKey", VString "secret")])]).

Definition access_denied : exn := mkExn "AccessDenied" "Access Denied".

Definition not_found : exn := mkExn "NotFound" "No such file or directory".

(** The temporary files of the examples: an empty one and two of two
    bytes. *)
Definition disk : gmap string (list Byte.byte) :=
  {[ "/tmp/upload-1" := []; "/tmp/upload-2" := [Byte.x68; Byte.x69];
     "/tmp/upload-3" := [Byte.x68; Byte.x6f] ]}.

(** A world that counts the calls made to it: call number [failing] (from
    0) is refused, every other call succeeds; files are read from [disk];
    [JSON.parse] yields [parsed]; the event loop gives every turn to the
    first of the pending calls. *)
Definition counting (failing : option nat) (parsed : value) : Runtime nat :=
  {| s3_send := fun _ _ n =>
       (if bool_decide (failing = Some n) then Throw access_denied
        else Normal (object []), S n);
     upload_done := fun _ _ n =>
       (if bool_decide (failing = Some n) then Throw access_denied
        else Normal tt, S n);
     Deno_readFile := fun path n =>
       (match disk !! path with
        | Some bytes => Normal bytes
        | None => Throw not_found
        end, n);
     JSON_parse := fun _ => Normal parsed;
     Number_toString := fun _ => "0";
     schedule := fun _ => 0 |}.

Definition json_request (body : value) : Request :=
  {| json := Normal body;
     form_data := Throw (new_TypeError "Request body is not form data") |}.

Definition form_request (reader : FormDataReader) : Request :=
  {| json := Throw (new_TypeError "Request body is not JSON");
     form_data := Normal reader |}.


(** The body of a delete request over the valid configuration, with or
    without a bucket field. *)
Definition delete_body (bucket : option string) (items : list value) : value :=
  object (match bucket with
          | Some b => [("config", valid_config); ("bucket", VString b);
                       ("items", VArray items)]
          | None => [("config", valid_config); ("items", VArray items)]
          end).

Definition delete_request (bucket : option string) (items : list value) : Request :=
  json_request (delete_body bucket items).

(** Two object items and two bucket items, interleaved. *)
Definition mixed_items : list value :=
  [ object [("Key", VString "notes/a.txt")];
    object [("Name", VString "old-logs"); ("isBucket", VBool true)];
    object [("Key", VString "notes/b.txt"); ("isBucket", VBool false)];
    object [("Name", VString "scratch"); ("isBucket", VBool true)] ].

(** A multipart reader for the examples, standing for the web framework's
    (oak's, not part of the repository) on a body whose file parts have the
    given names and sizes: a part above [maxFileSize] makes [read] throw the
    framework's size error, otherwise the parts come back as files spooled
    to a temporary directory. *)
Definition sized_reader (form_fields : gmap string string)
    (parts : list (string * N)) : FormDataReader :=
  {| read := fun options =>
       if existsb (fun part => (maxFileSize options <? snd part)%N) parts
       then Throw (mkExn "PayloadTooLargeError"
                     ("File size exceeds limit of "
                      +:+ pretty (maxFileSize options) +:+ " bytes."))
       else Normal
              {| fields := form_fields;
                 files :=
                   Some (map (fun part =>
                                {| content := None;
                                   contentType := "application/octet-stream";
                                   filename := Some ("/tmp/" +:+ fst part);
                                   originalName := fst part |})
                             parts) |} |}.

(** A reader that yields the given parts. *)
Definition reader_of (formData : FormDataBody) : FormDataReader :=
  {| read := fun _ => Normal formData |}.

(** An upload of two files with bytes: the first spooled to [disk], the
    second held in memory. *)
Definition spooled_and_buffered : FormDataBody :=
  {| fields := {[ "config" := "{ }"; "bucket" := "photos"; "path" := "2024/" ]};
     files :=
       Some [ {| content := None; contentType := "text/plain";
                 filename := Some "/tmp/upload-2"; originalName := "hi.txt" |};
              {| content := Some [Byte.x68; Byte.x6f]; contentType := "text/plain";
                 filename := None; originalName := "ho.txt" |} ] |}.

(** An upload of two files with bytes, both spooled to [disk]. *)
Definition two_spooled_files : FormDataBody :=
  {| fields := {[ "config" := "{ }"; "bucket" := "photos"; "path" := "2024/" ]};
     files :=
       Some [ {| content := None; contentType := "text/plain";
                 filename := Some "/tmp/upload-2"; originalName := "hi.txt" |};
              {| content := None; contentType := "text/plain";
                 filename := Some "/tmp/upload-3"; originalName := "ho.txt" |} ] |}.

(** An upload of an empty file and a two-byte file, both spooled to
    [disk]. *)
Definition two_files : FormDataBody :=
  {| fields := {[ "config" := "{ }"; "bucket" := "photos"; "path" := "2024/" ]};
     files :=
       Some [ {| content := None; contentType := "text/plain";
                 filename := Some "/tmp/upload-1"; originalName := "empty.txt" |};
              {| content := None; contentType := "text/plain";
                 filename := Some "/tmp/upload-2"; originalName := "hi.txt" |} ] |}.

(** [haystack.includes(needle)] *)
Fixpoint includes (needle haystack : string) : bool :=
  String.prefix needle haystack
  || match haystack with
     | EmptyString => false
     | String _ rest => includes needle rest
     end.

(** The items of a delete request by their flag. *)
Definition object_items (items : list value) : list value :=
  filter (fun item => truthy (get item "isBucket") = false) items.

Definition bucket_items (items : list value) : list value :=
  filter (fun item => truthy (get item "isBucket") = true) items.

(** The bucket items of the request [ctx] carries, when it carries any. *)
Definition requested_buckets (ctx : Request) : list value :=
  match json ctx with
  | Normal body =>
      match get body "items" with
      | VArray items => bucket_items items
      | _ => []
      end
  | Throw _ => []
  end.

(** The delete-bucket calls of a log. *)
Definition bucket_deletions (log : list effect) : list effect :=
  filter (fun f => from_option is_DeleteBucket false (sent_command f) = true) log.

(** The calls of the loop over the bucket items, given their outcomes. *)
Definition bucket_calls (client : S3Client) (bs : list value)
    (outcomes : list (completion value)) : list effect :=
  zip_with (fun b outcome => Sent client (delete_bucket_command b) outcome) bs outcomes.

Definition items_deleted : value :=
  object [("success", VBool true); ("message", VString "Items deleted successfully.")].

(** How the loop over the bucket items [bs] ends, given the outcomes of its
    calls: every call succeeded and the route answers 200, or the last call
    made is the first to fail and the route reports that failure. *)
Definition loop_result (bs : list value) (outcomes : list (completion value))
    (resp : Response) : Prop :=
  length outcomes <= length bs
  /\ ((resp = mkResponse 200 items_deleted
       /\ length outcomes = length bs
       /\ Forall (fun o => is_normal o = true) outcomes)
      \/ (exists e before,
             outcomes = before ++ [Throw e]
             /\ Forall (fun o => is_normal o = true) before
             /\ resp = internal_error e)).

(** What the task of [file] leaves in the log: nothing for a file without
    bytes in memory or without a source, the read alone for a temporary
    file that cannot be read or that is empty, and otherwise the upload of
    its bytes (after the read, for a temporary file). *)
Inductive file_log (client : S3Client) (bucket path : option string)
    (file : FormDataFile) : list effect -> Prop :=
| log_empty_in_memory data :
    content file = Some data -> length data = 0 ->
    file_log client bucket path file []
| log_in_memory data outcome :
    content file = Some data -> length data <> 0 ->
    file_log client bucket path file
      [Uploaded client (upload_params bucket path file data) outcome]
| log_no_source :
    content file = None -> truthy (field_value (filename file)) = false ->
    file_log client bucket path file []
| log_unreadable name e :
    content file = None -> filename file = Some name ->
    file_log client bucket path file [FileRead name (Throw e)]
| log_empty_on_disk name data :
    content file = None -> filename file = Some name -> length data = 0 ->
    file_log client bucket path file [FileRead name (Normal data)]
| log_on_disk name data outcome :
    content file = None -> filename file = Some name -> length data <> 0 ->
    file_log client bucket path file
      [FileRead name (Normal data);
       Uploaded client (upload_params bucket path file data) outcome].

Definition all_files_processed : value :=
  object [("success", VBool true); ("message", VString "All files processed.")].


(** A computation stops at the first call that fails: a failed effect is
    the last of its log, and its exception is what the computation throws. *)
Definition stops_at_failure {W A} (m : M W A) : Prop :=
  forall w r log w1,
    m w = (r, log, w1) ->
    forall i f e, log !! i = Some f -> failed_with f e ->
                  length log = S i /\ r = Throw e.

(** Every body a computation returns satisfies [P]. *)
Definition yields {W A} (P : A -> Prop) (m : M W A) : Prop :=
  forall w a log w1, m w = (Normal a, log, w1) -> P a.

(** How the task of [file] rejects: with the error of the read of its
    temporary file, or, when its upload failed, with an Error that names
    the file; [log] is what the task did. *)
Inductive task_rejection (client : S3Client) (bucket path : option string)
    (file : FormDataFile) : list effect -> exn -> Prop :=
| read_failed name e :
    content file = None -> filename file = Some name ->
    task_rejection client bucket path file [FileRead name (Throw e)] e
| upload_failed reads data uploadError :
    length data <> 0 ->
    Forall (fun f => is_Uploaded f = false /\ succeeded f = true) reads ->
    task_rejection client bucket path file
      (reads ++ [Uploaded client (upload_params bucket path file data) (Throw uploadError)])
      (new_Error ("Failed to upload " +:+ originalName file +:+ ": "
                  +:+ (if decide (message uploadError = "") then "Unknown S3 error"
                       else message uploadError))).

(** What a call does from one of its states to another: left with [call],
    it issues the operations of [log], in this order and with these
    outcomes, and is then left with [rest]. *)
Inductive reaches {A} : async A -> list effect -> async A -> Prop :=
| reaches_here call : reaches call [] call
| reaches_readFile path k data log rest :
    reaches (k data) log rest ->
    reaches (Await_readFile path k) (FileRead path data :: log) rest
| reaches_done client params k result log rest :
    reaches (k result) log rest ->
    reaches (Await_done client params k) (Uploaded client params result :: log) rest.

(** A call has [n] awaits at most before it ends. *)
Inductive awaits_at_most {A} : nat -> async A -> Prop :=
| awaits_Return n r : awaits_at_most n (Return r)
| awaits_readFile n path k :
    (forall data, awaits_at_most n (k data)) ->
    awaits_at_most (S n) (Await_readFile path k)
| awaits_done n client params k :
    (forall result, awaits_at_most n (k result)) ->
    awaits_at_most (S n) (Await_done client params k).

(** [log] is an interleaving of the lists [logs]: it has the elements of
    each list in the order of that list, and nothing else. *)
Inductive interleaving {A} : list (list A) -> list A -> Prop :=
| interleaving_nil logs : Forall (fun l => l = []) logs -> interleaving logs []
| interleaving_cons i x l logs log :
    logs !! i = Some (x :: l) ->
    interleaving (<[i := l]> logs) log ->
    interleaving logs (x :: log).

(** What is left of the call of a promise. *)
Definition rest_of {A} (p : promise A) : async A :=
  match p with
  | Pending rest => rest
  | Settled r => Return r
  end.

(** A promise settles within [n] turns of its call. *)
Definition settles_within {A} (p : promise A) (n : nat) : Prop :=
  match p with
  | Pending rest => exists m, n = S m /\ awaits_at_most m rest
  | Settled _ => True
  end.

(** The state of the calls of [calls] when they have done [log] and the
    promises that have settled have the outcomes [settled]: the promises
    are [promises], and each call did its share of [log]. *)
Definition running {A} (calls : list (async A)) (promises : list (promise A))
    (log : list effect) (settled : list (completion A)) : Prop :=
  exists shares : list (list effect * promise A),
    shares.*2 = promises
    /\ Forall2 (fun call share => reaches call share.1 (rest_of share.2)) calls shares
    /\ interleaving shares.*1 log
    /\ Permutation settled (omap outcome promises).

(** ** Properties of the client factory *)

Lemma absent_or_empty_falsy v : absent_or_empty v -> truthy v = false.
Proof. by intros [-> | ->]. Qed.

Lemma non_empty_string_truthy v : non_empty_string v -> truthy v = true.
Proof. intros (s & -> & Hs). by destruct s. Qed.

Lemma truthy_get_object config k :
  truthy (get config k) = true -> exists properties, config = VObject properties.
Proof. destruct config; try discriminate; eauto. Qed.

Lemma createS3Client_valid config :
  truthy (get config "region") = true ->
  truthy (get config "accessKeyId") = true ->
  truthy (get config "secretAccessKey") = true ->
  exists client, createS3Client config = Normal client.
Proof.
  intros Hr Ha Hs. destruct (truthy_get_object _ _ Hr) as [m ->].
  unfold createS3Client. rewrite Hr, Ha, Hs. simpl. eauto.
Qed.

(** The message of the configuration error is the code's own sentence. *)
Lemma C1_counterexample :
  let config := object [("accessKeyId", VString "AK"); ("secretAccessKey", VString "SK")] in
  absent_or_empty (get config "region")
  /\ exists e, createS3Client config = Throw e
              /\ message e <> "missing AWS configuration".
Proof.
  split; [by left |].
  exists (new_Error missing_configuration). split; [by vm_compute | discriminate].
Qed.

(** C1 (amended): a configuration whose region, accessKeyId or
    secretAccessKey is absent or the empty string (a missing configuration
    has none of them) makes [createS3Client] throw an Error whose message is
    "Missing AWS configuration. Region, Access Key, and Secret Key are
    required.", and no client is returned; with all three fields non-empty
    strings a client is returned. *)
Theorem C1_createS3Client_validation (config : value) :
  (absent_or_empty (get config "region")
   \/ absent_or_empty (get config "accessKeyId")
   \/ absent_or_empty (get config "secretAccessKey") ->
   createS3Client config
   = Throw (new_Error
              "Missing AWS configuration. Region, Access Key, and Secret Key are required."))
  /\ (non_empty_string (get config "region") ->
      non_empty_string (get config "accessKeyId") ->
      non_empty_string (get config "secretAccessKey") ->
      exists client, createS3Client config = Normal client).
Proof.
  split.
  - intros H. unfold createS3Client.
    assert (negb (truthy config)
            || negb (truthy (get config "region"))
            || negb (truthy (get config "accessKeyId"))
            || negb (truthy (get config "secretAccessKey")) = true) as ->; [| done].
    destruct H as [H | [H | H]]; rewrite (absent_or_empty_falsy _ H); simpl;
      by rewrite ?orb_true_r.
  - intros Hr Ha Hs.
    apply createS3Client_valid; by apply non_empty_string_truthy.
Qed.

Lemma C1_witness :
  createS3Client (object [("region", VString ""); ("accessKeyId", VString "AK");
                          ("secretAccessKey", VString "SK")])
  = Throw (new_Error
             "Missing AWS configuration. Region, Access Key, and Secret Key are required.")
  /\ exists client, createS3Client valid_config = Normal client.
Proof.
  split.
  - apply (proj1 (C1_createS3Client_validation _)). left. by right.
  - apply (proj2 (C1_createS3Client_validation valid_config)); by eexists.
Defined.

(** An endpoint that is present but empty is not applied. *)
Lemma C5_counterexample :
  let config := object [("region", VString "us-east-1"); ("accessKeyId", VString "AK");
                        ("secretAccessKey", VString "SK"); ("endpoint", VString "")] in
  (exists properties,
      config = VObject properties /\ properties !! "endpoint" = Some (VString ""))
  /\ exists clientConfig,
      createS3Client config = Normal (new_S3Client (VObject clientConfig))
      /\ clientConfig !! "endpoint" = None
      /\ clientConfig !! "forcePathStyle" = None.
Proof.
  split; [eexists; split; [reflexivity | by vm_compute] |].
  eexists. split; [by vm_compute | by vm_compute].
Qed.

(** C5 (amended): in the configuration of every client [createS3Client]
    returns, a truthy endpoint (present and not empty) is set as the
    endpoint, with forcePathStyle set to true; when the endpoint is absent
    (or present but falsy, as the empty string is) the configuration has no
    endpoint and no forcePathStyle property. *)
Theorem C5_endpoint_forces_path_style (config : value) (client : S3Client) :
  createS3Client config = Normal client ->
  exists clientConfig,
    configuration client = VObject clientConfig
    /\ (truthy (get config "endpoint") = true ->
        clientConfig !! "endpoint" = Some (get config "endpoint")
        /\ clientConfig !! "forcePathStyle" = Some (VBool true))
    /\ (truthy (get config "endpoint") = false ->
        clientConfig !! "endpoint" = None
        /\ clientConfig !! "forcePathStyle" = None).
Proof.
  unfold createS3Client. destruct (_ || _); [discriminate |].
  destruct (truthy (get config "endpoint")) eqn:Hendpoint; intros [= <-];
    eexists; (split; [reflexivity |]); split; intros; try discriminate;
    split; by simplify_map_eq.
Qed.

Lemma C5_witness :
  let config := object [("region", VString "us-east-1"); ("accessKeyId", VString "AK");
                        ("secretAccessKey", VString "SK");
                        ("endpoint", VString "http://localhost:9000")] in
  let client :=
    new_S3Client
      (object [("region", VString "us-east-1");
               ("credentials", object [("accessKeyId", VString "AK");
                                       ("secretAccessKey", VString "SK")]);
               ("endpoint", VString "http://localhost:9000");
               ("forcePathStyle", VBool true)]) in
  exists clientConfig,
    configuration client = VObject clientConfig
    /\ (truthy (get config "endpoint") = true ->
        clientConfig !! "endpoint" = Some (get config "endpoint")
        /\ clientConfig !! "forcePathStyle" = Some (VBool true))
    /\ (truthy (get config "endpoint") = false ->
        clientConfig !! "endpoint" = None
        /\ clientConfig !! "forcePathStyle" = None).
Proof.
  intros config client.
  apply (C5_endpoint_forces_path_style config client). by vm_compute.
Defined.

(** X1: the configuration of every client [createS3Client] returns carries
    the region of the request's configuration and its two credentials. *)
Theorem X1_client_carries_region_and_credentials (config : value) (client : S3Client) :
  createS3Client config = Normal client ->
  get (configuration client) "region" = get config "region"
  /\ get (get (configuration client) "credentials") "accessKeyId"
     = get config "accessKeyId"
  /\ get (get (configuration client) "credentials") "secretAccessKey"
     = get config "secretAccessKey".
Proof.
  unfold createS3Client. destruct (_ || _); [discriminate |].
  destruct (truthy (get config "endpoint")); intros [= <-];
    unfold get at 1 3 6; simpl; by simplify_map_eq.
Qed.

Lemma X1_witness :
  let client := valid_client in
  get (configuration client) "region" = get valid_config "region"
  /\ get (get (configuration client) "credentials") "accessKeyId"
     = get valid_config "accessKeyId"
  /\ get (get (configuration client) "credentials") "secretAccessKey"
     = get valid_config "secretAccessKey".
Proof.
  intros client.
  apply (X1_client_carries_region_and_credentials valid_config client). by vm_compute.
Defined.

(** X16: the outcome of [createS3Client] depends on nothing but the
    region, accessKeyId, secretAccessKey and endpoint of the configuration:
    whatever else a configuration carries (a session token, say) is
    ignored. *)
Theorem X16_client_depends_on_four_fields (config1 config2 : value) :
  get config1 "region" = get config2 "region" ->
  get config1 "accessKeyId" = get config2 "accessKeyId" ->
  get config1 "secretAccessKey" = get config2 "secretAccessKey" ->
  get config1 "endpoint" = get config2 "endpoint" ->
  createS3Client config1 = createS3Client config2.
Proof.
  intros Hregion Hkey Hsecret Hendpoint. unfold createS3Client.
  rewrite <- Hregion, <- Hkey, <- Hsecret, <- Hendpoint.
  destruct (truthy (get config1 "region")) eqn:Htruthy.
  - assert (truthy config1 = true) as ->.
    { by destruct (truthy_get_object _ _ Htruthy) as [m1 ->]. }
    assert (truthy config2 = true) as ->; [| done].
    rewrite Hregion in Htruthy. by destruct (truthy_get_object _ _ Htruthy) as [m2 ->].
  - simpl negb. by rewrite !orb_true_r.
Qed.

Lemma X16_witness :
  createS3Client
    (object [("region", VString "eu-west-1"); ("accessKeyId", VString "AKIAEXAMPLE");
             ("secretAccessKey", VString "secret"); ("sessionToken", VString "token")])
  = createS3Client valid_config.
Proof.
  apply X16_client_depends_on_four_fields; by vm_compute.
Defined.

(** ** Properties of [includes] *)

Lemma prefix_append needle rest : String.prefix needle (needle +:+ rest) = true.
Proof.
  induction needle as [| a needle IH]; [by destruct rest |].
  simpl. by destruct (Ascii.ascii_dec a a).
Qed.

Lemma includes_append pre needle post :
  includes needle (pre +:+ needle +:+ post) = true.
Proof.
  induction pre as [| a pre IH].
  - change ("" +:+ needle +:+ post) with (needle +:+ post).
    generalize (prefix_append needle post).
    generalize (needle +:+ post). intros haystack Hprefix.
    destruct haystack; cbn [includes]; by rewrite Hprefix.
  - change (String a pre +:+ needle +:+ post) with (String a (pre +:+ needle +:+ post)).
    cbn [includes]. rewrite IH. apply orb_true_r.
Qed.

(** ** Properties of the routes *)

Section Properties.
Context {W : Type} {runtime : Runtime W}.

Lemma bind_lift_normal {A C} (c : completion A) (a : A) (k : A -> M W C) w :
  c = Normal a -> bind (lift c) k w = k a w.
Proof. intros ->. unfold bind, lift. by destruct (k a w) as [[r log] w1]. Qed.

Lemma bind_lift_throw {A C} (c : completion A) e (k : A -> M W C) w :
  c = Throw e -> bind (lift c) k w = (Throw e, [], w).
Proof. by intros ->. Qed.

Lemma bind_ret {A C} (a : A) (k : A -> M W C) w : bind (ret a) k w = k a w.
Proof. unfold bind, ret. by destruct (k a w) as [[r log] w1]. Qed.

Lemma filter_array_not_isBucket items :
  Forall (fun item => nullish item = false) items ->
  filter_array not_isBucket items = Normal (object_items items).
Proof.
  unfold object_items. induction 1 as [| item items Hitem _ IH]; [done |].
  simpl. unfold not_isBucket at 1, member. rewrite Hitem, IH.
  rewrite filter_cons. by destruct (truthy (get item "isBucket")).
Qed.

Lemma filter_array_isBucket items :
  Forall (fun item => nullish item = false) items ->
  filter_array isBucket items = Normal (bucket_items items).
Proof.
  unfold bucket_items. induction 1 as [| item items Hitem _ IH]; [done |].
  simpl. unfold isBucket at 1, member. rewrite Hitem, IH.
  rewrite filter_cons. by destruct (truthy (get item "isBucket")).
Qed.

(** A [null] among the items makes the first filter throw. *)
Lemma filter_array_not_isBucket_normal items kept :
  filter_array not_isBucket items = Normal kept ->
  Forall (fun item => nullish item = false) items.
Proof.
  revert kept. induction items as [| item items IH]; intros kept; [done |].
  simpl. unfold not_isBucket at 1, member.
  destruct (nullish item) eqn:Hitem; [done |].
  destruct (filter_array not_isBucket items) as [rest |] eqn:Hrest; [| done].
  intros _. constructor; [done | by eapply IH].
Qed.

(** The loop over the bucket items: one call per item, in order, up to and
    including the first call that fails. *)
Lemma delete_buckets_loop client bs w r log w1 :
  for_of bs (fun b => let* _ := send client (delete_bucket_command b) in ret tt) w
  = (r, log, w1) ->
  exists outcomes,
    log = bucket_calls client bs outcomes
    /\ length outcomes <= length bs
    /\ match r with
       | Normal _ =>
           length outcomes = length bs /\ Forall (fun o => is_normal o = true) outcomes
       | Throw e =>
           exists pre, outcomes = pre ++ [Throw e]
                       /\ Forall (fun o => is_normal o = true) pre
       end.
Proof.
  revert w r log w1. induction bs as [| b bs IH]; intros w r log w1.
  - intros [= <- <- <-]. exists []. by repeat split.
  - simpl. unfold bind at 1. unfold bind at 1, send at 1, ret at 1.
    destruct (s3_send client (delete_bucket_command b) w) as [[data | e] w2].
    + destruct (for_of bs _ w2) as [[r' log'] w3] eqn:Hrest.
      intros [= <- <- <-]. apply IH in Hrest as (outcomes & -> & Hlen & Hr).
      exists (Normal data :: outcomes). split; [reflexivity |].
      split; [simpl; lia |].
      destruct r' as [[] | e].
      * destruct Hr as [Hlen' Hall]. split; [simpl; lia | by constructor].
      * destruct Hr as (pre & -> & Hpre). exists (Normal data :: pre).
        split; [reflexivity | by constructor].
    + intros [= <- <- <-]. exists [Throw e]. split; [by destruct bs |].
      split; [simpl; lia |]. exists []. by split.
Qed.

(** A body that carries a valid configuration is an object. *)
Lemma valid_body_not_nullish body client :
  createS3Client (get body "config") = Normal client -> nullish body = false.
Proof. by destruct body. Qed.

(** Steps a route that destructures its body past the parsing of the body
    and the construction of the client, both known to succeed. *)
Ltac enter_route Hjson Hclient :=
  rewrite (bind_lift_normal _ _ _ _ Hjson);
  unfold destructure; rewrite (valid_body_not_nullish _ _ Hclient);
  rewrite (bind_lift_normal _ tt) by done;
  rewrite (bind_lift_normal _ _ _ _ Hclient).

Lemma delete_parsed ctx body client items w :
  json ctx = Normal body ->
  createS3Client (get body "config") = Normal client ->
  get body "items" = VArray items ->
  Forall (fun item => nullish item = false) items ->
  delete ctx w
  = handle (delete_partitioned client (get body "bucket")
              (object_items items) (bucket_items items)) internal_error w.
Proof.
  intros Hjson Hclient Hitems Hall. unfold delete, handle.
  enter_route Hjson Hclient.
  rewrite Hitems. unfold Array_filter.
  rewrite (bind_lift_normal _ _ _ _ (filter_array_not_isBucket _ Hall)).
  rewrite (bind_lift_normal _ _ _ _ (filter_array_isBucket _ Hall)).
  reflexivity.
Qed.

(** Either the request reaches the partitioned deletion, or the route fails
    before any call is made. *)
Lemma delete_parsed_or_rejected ctx w :
  (exists body client items,
      json ctx = Normal body
      /\ createS3Client (get body "config") = Normal client
      /\ get body "items" = VArray items
      /\ Forall (fun item => nullish item = false) items)
  \/ (exists e, delete ctx w = (internal_error e, [], w)).
Proof.
  destruct (json ctx) as [body | e] eqn:Hjson; cycle 1.
  { right. exists e. unfold delete, handle.
    by rewrite (bind_lift_throw _ _ _ _ Hjson). }
  destruct (nullish body) eqn:Hbody.
  { right. eexists. unfold delete, handle.
    rewrite (bind_lift_normal _ _ _ _ Hjson).
    unfold destructure. rewrite Hbody.
    rewrite (bind_lift_throw _ _ _ _ eq_refl). reflexivity. }
  destruct (createS3Client (get body "config")) as [client | e] eqn:Hclient; cycle 1.
  { right. exists e. unfold delete, handle.
    rewrite (bind_lift_normal _ _ _ _ Hjson).
    unfold destructure. rewrite Hbody.
    rewrite (bind_lift_normal _ tt); [| done].
    by rewrite (bind_lift_throw _ _ _ _ Hclient). }
  assert (forall e,
             Array_filter (get body "items") "items" not_isBucket = Throw e ->
             delete ctx w = (internal_error e, [], w)) as Hfilter.
  { intros e He. unfold delete, handle.
    rewrite (bind_lift_normal _ _ _ _ Hjson).
    unfold destructure. rewrite Hbody.
    rewrite (bind_lift_normal _ tt); [| done].
    rewrite (bind_lift_normal _ _ _ _ Hclient).
    by rewrite (bind_lift_throw _ _ _ _ He). }
  destruct (get body "items") as [| | | | | items |] eqn:Hitems;
    try (right; eexists; apply Hfilter; reflexivity).
  destruct (filter_array not_isBucket items) as [kept | e] eqn:Hkept.
  - left. exists body, client, items. repeat split; try done.
    by eapply filter_array_not_isBucket_normal.
  - right. exists e. by apply Hfilter.
Qed.

(** The loop over the bucket items under the route's catch block. *)
Lemma delete_buckets_handled client bs w resp log w1 :
  handle (let* _ := for_of bs
                      (fun b => let* _ := send client (delete_bucket_command b) in ret tt) in
          ret items_deleted) internal_error w = (resp, log, w1) ->
  exists outcomes,
    log = bucket_calls client bs outcomes /\ loop_result bs outcomes resp.
Proof.
  unfold handle, bind at 1.
  destruct (for_of bs _ w) as [[r log'] w2] eqn:Hloop.
  apply delete_buckets_loop in Hloop as (outcomes & -> & Hlen & Hr).
  destruct r as [[] | e].
  - unfold ret. intros [= <- <- <-]. exists outcomes.
    rewrite app_nil_r. repeat split; try done. left. by destruct Hr.
  - intros [= <- <- <-]. exists outcomes. repeat split; try done.
    right. destruct Hr as (before & -> & Hbefore). by exists e, before.
Qed.

(** The three ways through the partitioned deletion. *)
Lemma delete_partitioned_spec client bucket objs bks w resp log w1 :
  handle (delete_partitioned client bucket objs bks) internal_error w
  = (resp, log, w1) ->
  (objs = []
   /\ exists outcomes,
       log = bucket_calls client bks outcomes /\ loop_result bks outcomes resp)
  \/ (objs <> [] /\ truthy bucket = false
      /\ resp = internal_error (new_Error bucket_name_required)
      /\ log = [] /\ w1 = w)
  \/ (objs <> [] /\ truthy bucket = true
      /\ exists outcome outcomes,
          log = Sent client (delete_objects_command bucket objs) outcome
                :: bucket_calls client bks outcomes
          /\ match outcome with
             | Throw e => outcomes = [] /\ resp = internal_error e
             | Normal _ => loop_result bks outcomes resp
             end).
Proof.
  unfold delete_partitioned. destruct objs as [| item objs].
  - simpl length. change (0 <? 0)%nat with false. cbv iota.
    intros H. left. split; [done |].
    apply (delete_buckets_handled client bks w resp log w1). rewrite <- H.
    unfold handle. by rewrite bind_ret.
  - change (0 <? length (item :: objs))%nat with true. cbv iota.
    destruct (truthy bucket) eqn:Hbucket; simpl negb; cbv iota.
    + intros H. right. right. repeat split; try done.
      revert H. unfold handle, bind at 1, bind at 1, send at 1.
      destruct (s3_send client _ w) as [[data | e] w2].
      * unfold ret at 1.
        destruct (bind (for_of bks _) _ w2) as [[r log'] w3] eqn:Hrest.
        intros H.
        assert (handle (let* _ := for_of bks
                          (fun b => let* _ := send client (delete_bucket_command b) in
                                    ret tt) in
                        ret items_deleted) internal_error w2
                = (resp, log', w3)) as Hloop.
        { unfold handle, items_deleted. rewrite Hrest.
          destruct r; by injection H as <- _ _. }
        apply delete_buckets_handled in Hloop as (outcomes & -> & Hres).
        exists (Normal data), outcomes. split; [| done].
        destruct r; by injection H as _ <- _.
      * intros [= <- <- <-]. exists (Throw e), []. split; [by destruct bks | done].
    + intros [= <- <- <-]. right. left. by repeat split.
Qed.

Lemma bucket_deletions_bucket_calls client bs outcomes :
  bucket_deletions (bucket_calls client bs outcomes) = bucket_calls client bs outcomes.
Proof.
  unfold bucket_deletions, bucket_calls.
  revert outcomes. induction bs as [| b bs IH]; intros [| o outcomes]; try done.
  simpl. rewrite filter_cons_True by done. by rewrite IH.
Qed.

Lemma bucket_calls_nil client bs : bucket_calls client bs [] = [].
Proof. by destruct bs. Qed.

Lemma bucket_calls_lookup client bs outcomes k f :
  bucket_calls client bs outcomes !! k = Some f ->
  exists b o, bs !! k = Some b /\ outcomes !! k = Some o
              /\ f = Sent client (delete_bucket_command b) o.
Proof.
  unfold bucket_calls. intros (b & o & -> & Hb & Ho)%lookup_zip_with_Some. eauto.
Qed.

Lemma length_bucket_calls client bs outcomes :
  length outcomes <= length bs ->
  length (bucket_calls client bs outcomes) = length outcomes.
Proof. unfold bucket_calls. rewrite length_zip_with. lia. Qed.

(** In a finished loop a failed call is the last one, and it is the failure
    the route reports. *)
Lemma loop_result_failure bs outcomes resp k e :
  loop_result bs outcomes resp ->
  outcomes !! k = Some (Throw e) ->
  length outcomes = S k /\ resp = internal_error e.
Proof.
  intros [Hlen [(_ & _ & Hall) | (e' & before & -> & Hbefore & ->)]] Hk.
  - rewrite Forall_lookup in Hall. by apply Hall in Hk.
  - destruct (decide (k < length before)) as [Hlt | Hge].
    + rewrite lookup_app_l in Hk by done.
      rewrite Forall_lookup in Hbefore. by apply Hbefore in Hk.
    + rewrite lookup_app_r in Hk by lia.
      destruct (k - length before) as [| n] eqn:Hn; [| by destruct n].
      injection Hk as <-. rewrite length_app. simpl. split; [lia | done].
Qed.

(** When every call of a finished loop succeeded, each bucket item got its
    call and the route answers 200. *)
Lemma loop_result_success bs outcomes resp :
  loop_result bs outcomes resp ->
  Forall (fun o => is_normal o = true) outcomes ->
  length outcomes = length bs /\ resp = mkResponse 200 items_deleted.
Proof.
  intros [Hlen [(-> & Hl & _) | (e & before & -> & _ & _)]] Hall; [done |].
  apply Forall_app in Hall as [_ Hlast]. by inversion Hlast.
Qed.

Lemma bucket_calls_succeeded client bs outcomes :
  length outcomes <= length bs ->
  Forall (fun f => succeeded f = true) (bucket_calls client bs outcomes) ->
  Forall (fun o => is_normal o = true) outcomes.
Proof.
  intros Hlen Hall. apply Forall_lookup. intros k o Ho.
  destruct (lookup_lt_is_Some_2 bs k) as [b Hb].
  { apply lookup_lt_Some in Ho. lia. }
  rewrite Forall_lookup in Hall.
  apply (Hall k (Sent client (delete_bucket_command b) o)).
  unfold bucket_calls. apply lookup_zip_with_Some. eauto.
Qed.

(** C9: a delete request with a valid configuration and an empty items
    sequence makes no delete-objects call and no delete-bucket call (no call
    at all), and is answered 200 with [{success: true, message: 'Items
    deleted successfully.'}], whatever the bucket field is, absent
    included. *)
Theorem C9_delete_nothing_succeeds ctx body client w :
  json ctx = Normal body ->
  createS3Client (get body "config") = Normal client ->
  get body "items" = VArray [] ->
  delete ctx w
  = (mkResponse 200 (object [("success", VBool true);
                             ("message", VString "Items deleted successfully.")]),
     [], w).
Proof.
  intros Hjson Hclient Hitems.
  by rewrite (delete_parsed ctx body client [] w Hjson Hclient Hitems).
Qed.

(** C4 (amended): a delete request with a valid configuration whose items
    are a non-empty sequence of object items only (each a non-null value
    whose isBucket is falsy) and whose bucket field is absent (or falsy, as
    the empty string is) is answered 500 with the error "Bucket name is
    required for deleting objects.", and no backend call is made. *)
Theorem C4_delete_objects_requires_bucket ctx body client items w :
  json ctx = Normal body ->
  createS3Client (get body "config") = Normal client ->
  get body "items" = VArray items ->
  items <> [] ->
  Forall (fun item => nullish item = false /\ truthy (get item "isBucket") = false) items ->
  truthy (get body "bucket") = false ->
  delete ctx w
  = (mkResponse 500
       (object [("error", VString "Bucket name is required for deleting objects.")]),
     [], w).
Proof.
  intros Hjson Hclient Hitems Hne Hall Hbucket.
  assert (Forall (fun item => nullish item = false) items) as Hnull.
  { eapply Forall_impl; [exact Hall | by intros item []]. }
  rewrite (delete_parsed ctx body client items w Hjson Hclient Hitems Hnull).
  assert (object_items items = items) as ->.
  { unfold object_items. clear -Hall. induction Hall as [| item items [_ Hitem] _ IH]; [done |].
    by rewrite filter_cons_True, IH. }
  destruct items as [| item items]; [done |].
  unfold delete_partitioned, handle. simpl length.
  change (0 <? S (length items))%nat with true. cbv iota.
  by rewrite Hbucket.
Qed.

(** C3 (amended): for a delete request with a valid configuration and a
    truthy bucket field whose items (none of them null) contain at least one
    object item and at least one bucket item, the route first makes exactly
    one batched delete-objects call covering all object items, and after it
    nothing but delete-bucket calls, which are for the bucket items in input
    order, one each, up to the first call that fails: a failed call is the
    last call made and its error is the 500 response; when every call
    succeeds there is one delete-bucket call per bucket item and the
    response is the 200 success. *)
Theorem C3_delete_objects_then_buckets ctx body client items w resp log w1 :
  json ctx = Normal body ->
  createS3Client (get body "config") = Normal client ->
  truthy (get body "bucket") = true ->
  get body "items" = VArray items ->
  Forall (fun item => nullish item = false) items ->
  object_items items <> [] ->
  bucket_items items <> [] ->
  delete ctx w = (resp, log, w1) ->
  exists outcome outcomes,
    log = Sent client
            (delete_objects_command (get body "bucket") (object_items items)) outcome
          :: bucket_calls client (bucket_items items) outcomes
    /\ length outcomes <= length (bucket_items items)
    /\ (forall i f e,
           log !! i = Some f -> failed_with f e ->
           length log = S i /\ resp = internal_error e)
    /\ (Forall (fun f => succeeded f = true) log ->
        length outcomes = length (bucket_items items)
        /\ resp = mkResponse 200
                    (object [("success", VBool true);
                             ("message", VString "Items deleted successfully.")])).
Proof.
  intros Hjson Hclient Hbucket Hitems Hnull Hobjs _.
  rewrite (delete_parsed ctx body client items w Hjson Hclient Hitems Hnull).
  intros [[Hnil _] | [(_ & Hfalsy & _) | (_ & _ & outcome & outcomes & -> & Hres)]]%delete_partitioned_spec;
    [done | congruence |].
  exists outcome, outcomes. split; [done |].
  assert (length outcomes <= length (bucket_items items)) as Hlen.
  { destruct outcome; [by destruct Hres | destruct Hres as [-> _]; simpl; lia]. }
  split; [done |]. split.
  - intros [| k] f e Hf Hfail.
    + injection Hf as <-. simpl in Hfail. subst outcome.
      destruct Hres as [-> ->]. by rewrite bucket_calls_nil.
    + simpl in Hf. apply bucket_calls_lookup in Hf as (b & o & _ & Ho & ->).
      simpl in Hfail. subst o. destruct outcome as [data | e'].
      * destruct (loop_result_failure _ _ _ _ _ Hres Ho) as [Hk ->].
        simpl. by rewrite length_bucket_calls, Hk.
      * destruct Hres as [-> _]. by destruct (bucket_items items).
  - intros [Hfirst Hrest]%Forall_cons. simpl in Hfirst.
    destruct outcome as [data | e]; [| done].
    apply loop_result_success; [done |].
    by eapply bucket_calls_succeeded.
Qed.

(** C10: in every delete request, when the delete-bucket call for the k-th
    bucket item fails, the delete-bucket calls made are those for the bucket
    items up to position k, in input order, and no other: none is made for a
    bucket item after position k; and the request reports that failure: the
    response is the 500 carrying its message. *)
Theorem C10_failed_bucket_deletion_stops_loop ctx w resp log w1 k f e :
  delete ctx w = (resp, log, w1) ->
  bucket_deletions log !! k = Some f ->
  failed_with f e ->
  (exists client outcomes,
      bucket_deletions log = bucket_calls client (requested_buckets ctx) outcomes
      /\ length outcomes = S k
      /\ S k <= length (requested_buckets ctx)
      /\ outcomes !! k = Some (Throw e))
  /\ length (bucket_deletions log) = S k
  /\ resp = mkResponse 500 (object [("error", VString (message e))]).
Proof.
  intros Hrun Hk Hfail.
  destruct (delete_parsed_or_rejected ctx w)
    as [(body & client & items & Hjson & Hclient & Hitems & Hnull) | [e' He']].
  2: { rewrite He' in Hrun. injection Hrun as _ <- _. done. }
  rewrite (delete_parsed ctx body client items w Hjson Hclient Hitems Hnull) in Hrun.
  assert (requested_buckets ctx = bucket_items items) as ->.
  { unfold requested_buckets. by rewrite Hjson, Hitems. }
  assert (exists outcomes,
             bucket_deletions log = bucket_calls client (bucket_items items) outcomes
             /\ loop_result (bucket_items items) outcomes resp)
    as (outcomes & Hlog & Hres).
  { apply delete_partitioned_spec in Hrun
      as [(_ & outcomes & -> & Hres)
         | [(_ & _ & _ & -> & _) | (_ & _ & outcome & outcomes & -> & Hres)]].
    - exists outcomes. by rewrite bucket_deletions_bucket_calls.
    - done.
    - unfold bucket_deletions. rewrite filter_cons_False by (simpl; done).
      fold (bucket_deletions (bucket_calls client (bucket_items items) outcomes)).
      rewrite bucket_deletions_bucket_calls.
      destruct outcome as [data | e'']; [by exists outcomes |].
      destruct Hres as [-> _]. rewrite bucket_calls_nil in Hk.
      unfold bucket_deletions in Hk. by rewrite filter_cons_False in Hk. }
  rewrite Hlog in Hk |- *.
  apply bucket_calls_lookup in Hk as (b & o & Hb & Ho & ->).
  simpl in Hfail. subst o.
  destruct (loop_result_failure _ _ _ _ _ Hres Ho) as [Hlen ->].
  assert (S k <= length (bucket_items items)) as Hle.
  { destruct Hres as [Hle _]. lia. }
  split; [by exists client, outcomes |]. split; [| done].
  rewrite length_bucket_calls; lia.
Qed.






(** *** Calls of async functions *)

Lemma reaches_trans {A} (a b c : async A) l1 l2 :
  reaches a l1 b -> reaches b l2 c -> reaches a (l1 ++ l2) c.
Proof.
  induction 1 as [| path k data log rest _ IH | client params k result log rest _ IH];
    intros Hbc; [done | |]; simpl; constructor; by apply IH.
Qed.

Lemma resume_reaches {A} (rest : async A) w p log w1 :
  resume rest w = (p, log, w1) -> reaches rest log (rest_of p).
Proof.
  destruct rest as [r | path k | client params k]; simpl.
  - intros [= <- <- <-]. constructor.
  - destruct (Deno_readFile path w) as [data w2]. intros [= <- <- <-].
    repeat constructor.
  - destruct (upload_done client params w) as [result w2]. intros [= <- <- <-].
    repeat constructor.
Qed.

Lemma resume_log {A} (rest : async A) w p log w1 :
  resume rest w = (p, log, w1) -> log = [] \/ exists f, log = [f].
Proof.
  destruct rest as [r | path k | client params k]; simpl.
  - intros [= <- <- <-]. by left.
  - destruct (Deno_readFile path w) as [data w2]. intros [= <- <- <-]. eauto.
  - destruct (upload_done client params w) as [result w2]. intros [= <- <- <-]. eauto.
Qed.

Lemma interleaving_snoc {A} (logs : list (list A)) log i l x :
  interleaving logs log -> logs !! i = Some l ->
  interleaving (<[i := l ++ [x]]> logs) (log ++ [x]).
Proof.
  intros Hlog. revert i l.
  induction Hlog as [logs Hnil | j y l' logs log Hj _ IH]; intros i l Hi.
  - assert (l = []) as ->.
    { by eapply (Forall_lookup_1 _ _ _ _ Hnil). }
    simpl. apply (interleaving_cons i x []).
    + apply list_lookup_insert_eq. by eapply lookup_lt_Some.
    + rewrite list_insert_insert_eq. apply interleaving_nil.
      by apply Forall_insert.
  - simpl. destruct (decide (i = j)) as [-> | Hne].
    + assert (l = y :: l') as -> by congruence.
      apply (interleaving_cons j y (l' ++ [x])).
      * apply list_lookup_insert_eq. by eapply lookup_lt_Some.
      * rewrite list_insert_insert_eq.
        rewrite <- (list_insert_insert_eq logs j (l' ++ [x]) l').
        apply IH. apply list_lookup_insert_eq. by eapply lookup_lt_Some.
    + apply (interleaving_cons j y l').
      * by rewrite list_lookup_insert_ne.
      * rewrite list_insert_insert_ne by done. apply IH.
        by rewrite list_lookup_insert_ne.
Qed.

Lemma interleaving_In {A} (logs : list (list A)) log x :
  interleaving logs log -> (In x log <-> exists l, In l logs /\ In x l).
Proof.
  induction 1 as [logs Hnil | j y l' logs log Hj _ IH].
  - split; [done |]. intros (l & Hl & Hx).
    rewrite List.Forall_forall in Hnil. by rewrite (Hnil l Hl) in Hx.
  - simpl. rewrite IH. split.
    + intros [<- | (l & Hl & Hx)].
      * exists (y :: l'). split; [| by left].
        by eapply list_elem_of_In, list_elem_of_lookup_2.
      * apply list_elem_of_In, list_elem_of_lookup in Hl as [i Hi].
        destruct (decide (i = j)) as [-> | Hne].
        -- rewrite list_lookup_insert_eq in Hi by (by eapply lookup_lt_Some).
           injection Hi as <-. exists (y :: l'). split; [| by right].
           by eapply list_elem_of_In, list_elem_of_lookup_2.
        -- rewrite list_lookup_insert_ne in Hi by done.
           exists l. split; [| done]. by eapply list_elem_of_In, list_elem_of_lookup_2.
    + intros (l & Hl & Hx).
      apply list_elem_of_In, list_elem_of_lookup in Hl as [i Hi].
      destruct (decide (i = j)) as [-> | Hne].
      * assert (l = y :: l') as -> by congruence.
        destruct Hx as [<- | Hx]; [by left | right].
        exists l'. split; [| done].
        eapply list_elem_of_In, list_elem_of_lookup_2.
        apply list_lookup_insert_eq. by eapply lookup_lt_Some.
      * right. exists l. split; [| done].
        eapply list_elem_of_In, list_elem_of_lookup_2.
        by rewrite list_lookup_insert_ne.
Qed.

Lemma elem_of_pending {A} (promises : list (promise A)) i rest :
  elem_of (i, rest) (pending promises) <-> promises !! i = Some (Pending rest).
Proof.
  unfold pending. rewrite list_elem_of_omap. split.
  - intros (o & (j & p & -> & Hj)%elem_of_lookup_imap & Ho).
    destruct p as [rest' | r]; simpl in Ho; [| done]. by injection Ho as -> ->.
  - intros Hi. exists (Some (i, rest)). split; [| done].
    apply elem_of_lookup_imap. exists i, (Pending rest). by split.
Qed.

Lemma pending_nil {A} (promises : list (promise A)) :
  pending promises = [] -> Forall (fun p => exists r, p = Settled r) promises.
Proof.
  intros Hnil. apply Forall_lookup_2. intros i [rest | r] Hi; [| by eexists].
  apply elem_of_pending in Hi. rewrite Hnil in Hi. by apply elem_of_nil in Hi.
Qed.

Lemma outcomes_insert_Pending {A} (promises : list (promise A)) i rest rest' :
  promises !! i = Some (Pending rest) ->
  omap outcome (<[i := Pending rest']> promises) = omap outcome promises.
Proof.
  revert i. induction promises as [| p ps IH]; intros [| i] Hi; try done.
  - by injection Hi as ->.
  - simpl in *. by rewrite IH.
Qed.

Lemma outcomes_insert_Settled {A} (promises : list (promise A)) i rest r :
  promises !! i = Some (Pending rest) ->
  Permutation (omap outcome (<[i := Settled r]> promises)) (r :: omap outcome promises).
Proof.
  revert i. induction promises as [| p ps IH]; intros [| i] Hi; try done.
  - by injection Hi as ->.
  - simpl in *. destruct (outcome p); [| by apply IH].
    rewrite (IH i Hi). apply Permutation_swap.
Qed.

Lemma running_start {A} (calls : list (async A)) :
  running calls (map Pending calls) [] [].
Proof.
  exists (map (fun call => ([], Pending call)) calls). repeat split.
  - rewrite <- list_fmap_compose. by apply list_fmap_ext.
  - apply Forall2_fmap_r, Forall_Forall2_diag, List.Forall_forall.
    intros call _. constructor.
  - apply interleaving_nil. rewrite <- list_fmap_compose.
    apply List.Forall_forall. by intros l (call & <- & _)%in_map_iff.
  - by induction calls.
Qed.

(** A turn of a pending call keeps the calls [running]. *)
Lemma running_turn {A} (calls : list (async A)) promises log settled i rest w p f w1 :
  running calls promises log settled ->
  promises !! i = Some (Pending rest) ->
  resume rest w = (p, f, w1) ->
  running calls (<[i := p]> promises) (log ++ f) (settled ++ option_list (outcome p)).
Proof.
  intros (shares & <- & Hcalls & Hlog & Hsettled) Hi Hresume.
  apply list_lookup_fmap_Some in Hi as ([did p0] & Hp0 & Hi). simpl in Hp0. subst p0.
  destruct (Forall2_lookup_r _ _ _ _ _ Hcalls Hi) as (call & Hcall & Hdid).
  simpl in Hdid.
  exists (<[i := (did ++ f, p)]> shares). repeat split.
  - by rewrite list_fmap_insert.
  - rewrite <- (list_insert_id calls i call Hcall). apply Forall2_insert; [done |].
    simpl. eapply reaches_trans; [exact Hdid |]. by eapply resume_reaches.
  - rewrite list_fmap_insert. simpl.
    assert (shares.*1 !! i = Some did) as Hshare by (by rewrite list_lookup_fmap, Hi).
    destruct (resume_log _ _ _ _ _ Hresume) as [-> | [x ->]].
    + rewrite !app_nil_r. by rewrite list_insert_id.
    + by apply interleaving_snoc.
  - assert (shares.*2 !! i = Some (Pending rest)) as Hpending
        by (by rewrite list_lookup_fmap, Hi).
    destruct p as [rest' | r]; simpl.
    + rewrite app_nil_r. by erewrite outcomes_insert_Pending.
    + erewrite outcomes_insert_Settled by done.
      rewrite Hsettled. by rewrite <- Permutation_cons_append.
Qed.

Lemma start_all_running {A} (calls : list (async A)) :
  forall started rest promises log settled w ps log2 w2,
    calls = started ++ rest ->
    length promises = length started ->
    running calls (promises ++ map Pending rest) log settled ->
    start_all rest w = (ps, log2, w2) ->
    running calls (promises ++ ps) (log ++ log2) (settled ++ omap outcome ps).
Proof.
  intros started rest. revert started.
  induction rest as [| call rest IH];
    intros started promises log settled w ps log2 w2 Hcalls Hlen Hrun.
  { intros [= <- <- <-]. by rewrite !app_nil_r in *. }
  simpl. destruct (resume call w) as [[p f] w1] eqn:Hresume.
  destruct (start_all rest w1) as [[ps' log'] w3] eqn:Hrest.
  intros [= <- <- <-].
  assert ((promises ++ Pending call :: map Pending rest) !! length promises
          = Some (Pending call)) as Hcall.
  { by rewrite lookup_app_r, Nat.sub_diag by done. }
  pose proof (running_turn _ _ _ _ _ _ _ _ _ _ Hrun Hcall Hresume) as Hturn.
  rewrite insert_app_r_alt, Nat.sub_diag in Hturn by done. simpl in Hturn.
  rewrite (cons_middle p), !app_assoc.
  replace (settled ++ omap outcome (p :: ps'))
    with ((settled ++ option_list (outcome p)) ++ omap outcome ps')
    by (rewrite <- app_assoc; simpl; by destruct (outcome p)).
  eapply (IH (started ++ [call])); [| | | exact Hrest].
  - by rewrite <- app_assoc.
  - rewrite !length_app. simpl. lia.
  - by rewrite <- !app_assoc.
Qed.

Lemma resume_settles_within {A} (rest : async A) n w p f w1 :
  awaits_at_most n rest -> resume rest w = (p, f, w1) -> settles_within p n.
Proof.
  intros [m r | m path k Hk | m client params k Hk]; simpl.
  - by intros [= <- _ _].
  - destruct (Deno_readFile path w) as [data w2]. intros [= <- _ _]. simpl. eauto.
  - destruct (upload_done client params w) as [result w2]. intros [= <- _ _].
    simpl. eauto.
Qed.

Lemma start_all_settles_within {A} (calls : list (async A)) n w ps log w1 :
  Forall (awaits_at_most n) calls ->
  start_all calls w = (ps, log, w1) ->
  Forall2 settles_within ps (replicate (length calls) n).
Proof.
  intros Hcalls. revert w ps log w1.
  induction Hcalls as [| call calls Hcall _ IH]; intros w ps log w1.
  { intros [= <- _ _]. constructor. }
  simpl. destruct (resume call w) as [[p f] w2] eqn:Hresume.
  destruct (start_all calls w2) as [[ps' log'] w3] eqn:Hrest.
  intros [= <- _ _]. constructor; [by eapply resume_settles_within | by eapply IH].
Qed.

Lemma sum_list_lookup_le (ns : list nat) i n : ns !! i = Some n -> n <= sum_list ns.
Proof.
  revert i. induction ns as [| m ns IH]; intros [| i] Hi; try done; simpl in *.
  - injection Hi as ->. lia.
  - specialize (IH i Hi). lia.
Qed.

Lemma sum_list_insert_S (ns : list nat) i n :
  ns !! i = Some (S n) -> S (sum_list (<[i := n]> ns)) = sum_list ns.
Proof.
  revert i. induction ns as [| m ns IH]; intros [| i] Hi; try done; simpl in *.
  - injection Hi as ->. lia.
  - specialize (IH i Hi). lia.
Qed.

(** The event loop settles every promise when it has turns enough, and
    keeps the calls [running] meanwhile. *)
Lemma event_loop_running {A} (calls : list (async A)) turns :
  forall turn promises bounds log settled w settled2 log2 w2,
    running calls promises log settled ->
    Forall2 settles_within promises bounds ->
    sum_list bounds <= turns ->
    event_loop turns turn promises w = (settled2, log2, w2) ->
    exists final,
      Forall (fun p => exists r, p = Settled r) final
      /\ running calls final (log ++ log2) (settled ++ settled2).
Proof.
  induction turns as [| turns IH];
    intros turn promises bounds log settled w settled2 log2 w2 Hrun Hbounds Hsum.
  - simpl. intros Hloop.
    assert (pending promises = []) as Hnil.
    { destruct (pending promises) as [| [i rest] others] eqn:Hpending; [done |].
      assert (elem_of (i, rest) (pending promises)) as Hi by (rewrite Hpending; left).
      apply elem_of_pending in Hi.
      destruct (Forall2_lookup_l _ _ _ _ _ Hbounds Hi) as (n & Hn & m & -> & _).
      apply sum_list_lookup_le in Hn. lia. }
    assert ((settled2, log2, w2) = ([], [], w)) as Hend.
    { rewrite <- Hloop. by destruct (pending promises). }
    injection Hend as -> -> ->.
    exists promises. rewrite !app_nil_r. split; [by apply pending_nil | done].
  - cbn [event_loop]. destruct (pending promises) as [| first others] eqn:Hpending.
    { intros [= <- <- <-]. exists promises. rewrite !app_nil_r.
      split; [by apply pending_nil | done]. }
    set (next := nth (schedule turn mod length (first :: others)) (first :: others) first).
    assert (elem_of next (pending promises)) as Hnext.
    { rewrite Hpending. apply list_elem_of_In, nth_In.
      by apply Nat.mod_upper_bound. }
    clearbody next. destruct next as [i rest]. cbn [fst snd].
    apply elem_of_pending in Hnext.
    destruct (resume rest w) as [[p f] w1] eqn:Hresume.
    destruct (event_loop turns (S turn) (<[i := p]> promises) w1)
      as [[settled' log'] w3] eqn:Hloop.
    intros [= <- <- <-].
    destruct (Forall2_lookup_l _ _ _ _ _ Hbounds Hnext) as (n & Hn & m & -> & Hm).
    rewrite !app_assoc.
    eapply (IH _ _ (<[i := m]> bounds)); [| | | exact Hloop].
    + by eapply running_turn.
    + apply Forall2_insert; [done |]. by eapply resume_settles_within.
    + apply sum_list_insert_S in Hn. lia.
Qed.

(** The calls of [settle_all], when each has [n] awaits at most and the
    loop has [n] turns for each: every call runs to its end, the log is an
    interleaving of what the calls did, and the outcomes are those of the
    calls, in some order. *)
Lemma settle_all_runs {A} (calls : list (async A)) n w settled log w1 :
  Forall (awaits_at_most n) calls ->
  settle_all (n * length calls) calls w = (settled, log, w1) ->
  exists runs : list (list effect * completion A),
    Forall2 (fun call run => reaches call run.1 (Return run.2)) calls runs
    /\ interleaving runs.*1 log
    /\ Permutation settled runs.*2.
Proof.
  intros Hcalls. unfold settle_all.
  destruct (start_all calls w) as [[promises log1] w2] eqn:Hstart.
  destruct (event_loop _ 0 promises w2) as [[settled2 log2] w3] eqn:Hloop.
  intros [= <- <- <-].
  pose proof (start_all_running calls [] calls [] [] [] w promises log1 w2
                eq_refl eq_refl (running_start calls) Hstart) as Hrun.
  simpl in Hrun.
  pose proof (start_all_settles_within _ _ _ _ _ _ Hcalls Hstart) as Hbounds.
  destruct (event_loop_running calls (n * length calls) 0 promises _ log1 _ w2
              settled2 log2 w3 Hrun Hbounds)
    as (final & Hfinal & shares & <- & Hshares & Hlog & Hperm); [| exact Hloop |].
  { rewrite sum_list_replicate. lia. }
  clear Hrun Hbounds Hstart Hloop Hcalls.
  revert Hperm Hlog. generalize (omap outcome promises ++ settled2) (log1 ++ log2).
  intros rs l Hperm Hlog.
  assert (exists runs : list (list effect * completion A),
             Forall2 (fun call run => reaches call run.1 (Return run.2)) calls runs
             /\ runs.*1 = shares.*1 /\ runs.*2 = omap outcome shares.*2)
    as (runs & Hruns & H1 & H2).
  { clear Hperm Hlog. induction Hshares as [| call [did p] calls shares Hdid _ IH].
    { by exists []. }
    apply Forall_cons in Hfinal as [[r Hr] Hfinal]. simpl in Hr. subst p.
    destruct (IH Hfinal) as (runs & Hruns & H1 & H2).
    exists ((did, r) :: runs). rewrite !fmap_cons. simpl. rewrite H1, H2.
    repeat split; [by constructor | done..]. }
  exists runs. rewrite H1, H2. by repeat split.
Qed.

(** *** The upload route *)

Lemma resolve_spec file w r rlog w1 :
  resolve file w = (r, rlog, w1) ->
  Forall (fun f => is_Uploaded f = false /\ is_Sent f = false) rlog
  /\ (Forall (fun f => succeeded f = true) rlog -> is_normal r = true).
Proof.
  unfold resolve. destruct (content file) as [data |].
  { intros [= <- <- <-]. by split. }
  destruct (truthy _).
  - unfold bind, readFile, ret.
    destruct (Deno_readFile _ w) as [[data | e] w2]; intros [= <- <- <-].
    + split; [by repeat constructor | done].
    + split; [by repeat constructor |]. by intros [? _]%Forall_cons.
  - intros [= <- <- <-]. by split.
Qed.

Lemma upload_file_unfold client bucket path file w :
  upload_file client bucket path file w
  = match resolve file w with
    | (Throw e, rlog, w1) => (Throw e, rlog, w1)
    | (Normal None, rlog, w1) => (Normal tt, rlog, w1)
    | (Normal (Some data), rlog, w1) =>
        if (length data =? 0)%nat then (Normal tt, rlog, w1)
        else
          let params := upload_params bucket path file data in
          match upload_done client params w1 with
          | (Normal u, w2) => (Normal tt, rlog ++ [Uploaded client params (Normal u)], w2)
          | (Throw uploadError, w2) =>
              (Throw (new_Error
                        ("Failed to upload " +:+ originalName file +:+ ": "
                         +:+ (if truthy (VString (message uploadError))
                              then message uploadError
                              else "Unknown S3 error"))),
               rlog ++ [Uploaded client params (Throw uploadError)], w2)
          end
    end.
Proof.
  unfold upload_file, bind at 1.
  destruct (resolve file w) as [[[[data |] | e] rlog] w1]; try done.
  - destruct (length data =? 0)%nat; [unfold ret; by rewrite app_nil_r |].
    unfold try_catch, Upload_done, throw.
    destruct (upload_done client _ w1) as [[[] | e] w2]; [done |].
    by rewrite app_nil_r.
  - unfold ret. by rewrite app_nil_r.
Qed.

(** The callback cut at its awaits is the callback: a call on its own does
    what [upload_file] does. *)
Lemma upload_task_alone client bucket path file w :
  alone (upload_task client bucket path file) w = upload_file client bucket path file w.
Proof.
  rewrite upload_file_unfold. unfold upload_task, upload_bytes, resolve.
  destruct (content file) as [data |].
  - unfold ret. destruct (length data =? 0)%nat; [done |]. simpl.
    by destruct (upload_done client _ w) as [[[] | e] w2].
  - destruct (truthy (field_value (filename file))); [| done].
    unfold bind, readFile, ret. simpl.
    destruct (Deno_readFile _ w) as [[data | e] w2]; [| done]. simpl.
    destruct (length data =? 0)%nat; [done |]. simpl.
    by destruct (upload_done client _ w2) as [[[] | e] w3].
Qed.

Lemma upload_bytes_awaits client bucket path file fileData :
  awaits_at_most 1 (upload_bytes client bucket path file fileData).
Proof.
  destruct fileData as [data |]; [| constructor]. simpl.
  destruct (length data =? 0)%nat; constructor. intros [[] | e]; constructor.
Qed.

Lemma awaits_at_most_S {A} n (call : async A) :
  awaits_at_most n call -> awaits_at_most (S n) call.
Proof. induction 1; constructor; auto. Qed.

Lemma upload_task_awaits client bucket path file :
  awaits_at_most 2 (upload_task client bucket path file).
Proof.
  unfold upload_task. destruct (content file) as [data |].
  { apply awaits_at_most_S, upload_bytes_awaits. }
  destruct (truthy _); [| apply awaits_at_most_S, upload_bytes_awaits].
  constructor. intros [data | e]; [apply upload_bytes_awaits | constructor].
Qed.

(** The callback from the check of its bytes to its end: it stops there
    when there is none, and otherwise uploads them and fulfils, or rejects
    with an Error that names the file when the upload fails. *)
Lemma upload_bytes_run client bucket path file data log r :
  reaches (upload_bytes client bucket path file (Some data)) log (Return r) ->
  (length data = 0 /\ log = [] /\ r = Normal tt)
  \/ (length data <> 0
      /\ log = [Uploaded client (upload_params bucket path file data) (Normal tt)]
      /\ r = Normal tt)
  \/ (exists uploadError,
         length data <> 0
         /\ log = [Uploaded client (upload_params bucket path file data) (Throw uploadError)]
         /\ r = Throw (new_Error
                         ("Failed to upload " +:+ originalName file +:+ ": "
                          +:+ (if decide (message uploadError = "") then "Unknown S3 error"
                               else message uploadError)))).
Proof.
  simpl. destruct (length data =? 0)%nat eqn:Hlen.
  - apply Nat.eqb_eq in Hlen. inversion 1; subst. by left.
  - apply Nat.eqb_neq in Hlen. inversion 1 as [| | ? ? ? result ? ? Hrest]; subst.
    destruct result as [[] | uploadError]; inversion Hrest; subst.
    + right. by left.
    + right. right. exists uploadError. repeat split; [done |].
      by destruct (message uploadError).
Qed.

(** A call of the callback from its start to its end: what it did is one
    of the six logs of [file_log]; it fulfils when its read and its upload
    succeeded, and only then; and it rejects as [task_rejection] says. *)
Lemma upload_task_run client bucket path file log r :
  reaches (upload_task client bucket path file) log (Return r) ->
  file_log client bucket path file log
  /\ (Forall (fun f => succeeded f = true) log <-> r = Normal tt)
  /\ (forall e, r = Throw e -> task_rejection client bucket path file log e).
Proof.
  unfold upload_task. destruct (content file) as [data |] eqn:Hcontent.
  - intros [(Hlen & -> & ->) | [(Hlen & -> & ->) | (uploadError & Hlen & -> & ->)]]
             %upload_bytes_run.
    + split; [by eapply log_empty_in_memory |]. by split.
    + split; [by apply log_in_memory |]. split; [| done]. split; [done |].
      by repeat constructor.
    + split; [by apply log_in_memory |].
      split; [split; [by intros [? _]%Forall_cons | done] |].
      intros e' [= <-]. by apply (upload_failed client bucket path file []).
  - destruct (truthy (field_value (filename file))) eqn:Hname; cycle 1.
    { inversion 1; subst. split; [by apply log_no_source |]. by split. }
    destruct (filename file) as [name |] eqn:Hfilename; [| done]. simpl field_string.
    inversion 1 as [| ? ? read ? ? Hrest |]; subst.
    destruct read as [data | e].
    + apply upload_bytes_run in Hrest
        as [(Hlen & -> & ->) | [(Hlen & -> & ->) | (uploadError & Hlen & -> & ->)]].
      * split; [by eapply log_empty_on_disk |]. split; [| done]. split; [done |].
        by repeat constructor.
      * split; [by eapply log_on_disk |]. split; [| done]. split; [done |].
        by repeat constructor.
      * split; [by eapply log_on_disk |].
        split; [split; [by intros [_ [? _]%Forall_cons]%Forall_cons | done] |].
        intros e' [= <-].
        apply (upload_failed client bucket path file [FileRead name (Normal data)]);
          [done | by repeat constructor].
    + inversion Hrest; subst. split; [by eapply log_unreadable |].
      split; [split; [by intros [? _]%Forall_cons | done] |].
      intros e' [= <-]. by apply read_failed.
Qed.

(** No upload in the log of a file is of no bytes. *)
Lemma file_log_uploads client bucket path file log c params outcome :
  file_log client bucket path file log ->
  In (Uploaded c params outcome) log ->
  length (Body params) <> 0.
Proof.
  intros Hlog Hin.
  destruct Hlog as [data ? ? | data o ? ? | ? ? | name e ? ?
                   | name data ? ? ? | name data o ? ? ?];
    simpl in Hin; repeat (destruct Hin as [Hin | Hin]); try done;
    by injection Hin as _ <- _.
Qed.

(** A file whose bytes resolve to none is skipped: its task fulfils after
    the read, if any, without an upload. *)
Lemma upload_file_skips_empty client bucket path file w data rlog w1 :
  resolve file w = (Normal (Some data), rlog, w1) ->
  length data = 0 ->
  upload_file client bucket path file w = (Normal tt, rlog, w1)
  /\ Forall (fun f => is_Uploaded f = false) rlog.
Proof.
  intros Hresolve Hlen. rewrite upload_file_unfold, Hresolve, Hlen. split; [done |].
  apply resolve_spec in Hresolve as [Hreads _].
  eapply Forall_impl; [exact Hreads |]. by intros f [].
Qed.

Lemma first_rejection_in {A} (settled : list (completion A)) e :
  first_rejection settled = Throw e -> In (Throw e) settled.
Proof.
  unfold first_rejection, rejections.
  induction settled as [| [a | e0] settled IH]; simpl; [done | |].
  - intros He. right. by apply IH.
  - intros [= ->]. by left.
Qed.

Lemma first_rejection_fulfilled {A} (settled : list (completion A)) :
  first_rejection settled = Normal tt <-> Forall (fun r => is_normal r = true) settled.
Proof.
  unfold first_rejection, rejections.
  induction settled as [| [a | e0] settled IH]; simpl; [done | |].
  - rewrite IH. split; [by constructor | by intros [_ ?]%Forall_cons].
  - split; [done | by intros [? _]%Forall_cons].
Qed.

(** The calls of an upload request: every call runs to its end, the log is
    an interleaving of what the calls did, and the outcomes are those of the
    calls, in the order of settlement. *)
Lemma upload_tasks_settle client bucket path files w settled log w1 :
  settle_all (2 * length files) (map (upload_task client bucket path) files) w
  = (settled, log, w1) ->
  exists runs : list (list effect * completion unit),
    Forall2 (fun file run =>
               reaches (upload_task client bucket path file) run.1 (Return run.2))
            files runs
    /\ interleaving runs.*1 log
    /\ Permutation settled runs.*2.
Proof.
  intros Hsettle.
  destruct (settle_all_runs (map (upload_task client bucket path) files) 2
              w settled log w1) as (runs & Hruns & Hlog & Hperm).
  - apply Forall_fmap, List.Forall_forall. intros file _. apply upload_task_awaits.
  - by rewrite length_map.
  - exists runs. split; [by apply Forall2_fmap_l in Hruns | done].
Qed.

(** The upload route, once the body is read and the client is built. *)
Lemma upload_parsed ctx reader formData config client w :
  form_data ctx = Normal reader ->
  read reader upload_read_options = Normal formData ->
  JSON_parse (field_string (fields formData !! "config")) = Normal config ->
  createS3Client config = Normal client ->
  upload ctx w
  = handle
      (let* _ := Promise_all
                   (2 * length (default [] (files formData)))
                   (map (upload_task client (fields formData !! "bucket")
                           (fields formData !! "path"))
                        (default [] (files formData))) in
       ret all_files_processed)
      internal_error w.
Proof.
  intros Hreader Hread Hparse Hclient. unfold upload, handle.
  rewrite (bind_lift_normal _ _ _ _ Hreader).
  rewrite (bind_lift_normal _ _ _ _ Hread).
  rewrite (bind_lift_normal _ _ _ _ Hparse).
  by rewrite (bind_lift_normal _ _ _ _ Hclient).
Qed.

(** Either the request reaches the per-file processing, or the route fails
    before it with nothing done. *)
Lemma upload_parsed_or_rejected ctx w :
  (exists reader formData config client,
      form_data ctx = Normal reader
      /\ read reader upload_read_options = Normal formData
      /\ JSON_parse (field_string (fields formData !! "config")) = Normal config
      /\ createS3Client config = Normal client)
  \/ (exists e, upload ctx w = (internal_error e, [], w)).
Proof.
  destruct (form_data ctx) as [reader | e] eqn:Hreader; cycle 1.
  { right. exists e. unfold upload, handle. by rewrite (bind_lift_throw _ _ _ _ Hreader). }
  destruct (read reader upload_read_options) as [formData | e] eqn:Hread; cycle 1.
  { right. exists e. unfold upload, handle.
    rewrite (bind_lift_normal _ _ _ _ Hreader).
    by rewrite (bind_lift_throw _ _ _ _ Hread). }
  destruct (JSON_parse (field_string (fields formData !! "config")))
    as [config | e] eqn:Hparse; cycle 1.
  { right. exists e. unfold upload, handle.
    rewrite (bind_lift_normal _ _ _ _ Hreader).
    rewrite (bind_lift_normal _ _ _ _ Hread).
    by rewrite (bind_lift_throw _ _ _ _ Hparse). }
  destruct (createS3Client config) as [client | e] eqn:Hclient; cycle 1.
  { right. exists e. unfold upload, handle.
    rewrite (bind_lift_normal _ _ _ _ Hreader).
    rewrite (bind_lift_normal _ _ _ _ Hread).
    rewrite (bind_lift_normal _ _ _ _ Hparse).
    by rewrite (bind_lift_throw _ _ _ _ Hclient). }
  left. by exists reader, formData, config, client.
Qed.

(** An upload that reaches the per-file processing: the calls all run to
    their end, and the answer is the 200 success when they all fulfil, and
    otherwise the 500 of one that rejects. *)
Lemma upload_runs ctx reader formData config client w resp log w1 :
  form_data ctx = Normal reader ->
  read reader upload_read_options = Normal formData ->
  JSON_parse (field_string (fields formData !! "config")) = Normal config ->
  createS3Client config = Normal client ->
  upload ctx w = (resp, log, w1) ->
  exists runs : list (list effect * completion unit),
    Forall2 (fun file run =>
               reaches (upload_task client (fields formData !! "bucket")
                          (fields formData !! "path") file)
                       run.1 (Return run.2))
            (default [] (files formData)) runs
    /\ interleaving runs.*1 log
    /\ ((resp = mkResponse 200 all_files_processed
         /\ Forall (fun run => run.2 = Normal tt) runs)
        \/ (exists did e, In (did, Throw e) runs /\ resp = internal_error e)).
Proof.
  intros Hreader Hread Hparse Hclient.
  rewrite (upload_parsed ctx reader formData config client w Hreader Hread Hparse Hclient).
  unfold handle, bind, Promise_all.
  destruct (settle_all _ _ w) as [[settled slog] w2] eqn:Hsettle.
  apply upload_tasks_settle in Hsettle as (runs & Hruns & Hlog & Hperm).
  destruct (first_rejection settled) as [[] | e] eqn:Hfirst; simpl;
    intros [= <- <- <-]; exists runs; rewrite ?app_nil_r;
    (split; [done |]); (split; [done |]).
  - left. split; [done |].
    apply first_rejection_fulfilled in Hfirst. rewrite Hperm in Hfirst.
    apply Forall_fmap in Hfirst. eapply Forall_impl; [exact Hfirst |].
    by intros [did [[] | e]].
  - right. apply first_rejection_in, list_elem_of_In in Hfirst. rewrite Hperm in Hfirst.
    apply list_elem_of_fmap in Hfirst as ([did r] & Hr & Hin). simpl in Hr. subst r.
    exists did, e. split; [by apply list_elem_of_In | done].
Qed.

(** The log and the answer of an upload that reaches the per-file
    processing. *)
Lemma upload_processed ctx reader formData config client w :
  form_data ctx = Normal reader ->
  read reader upload_read_options = Normal formData ->
  JSON_parse (field_string (fields formData !! "config")) = Normal config ->
  createS3Client config = Normal client ->
  exists logs,
    interleaving logs (upload ctx w).1.2
    /\ Forall2 (file_log client (fields formData !! "bucket") (fields formData !! "path"))
               (default [] (files formData)) logs
    /\ (Forall (fun f => succeeded f = true) (upload ctx w).1.2 ->
        (upload ctx w).1.1 = mkResponse 200 all_files_processed).
Proof.
  intros Hreader Hread Hparse Hclient.
  destruct (upload ctx w) as [[resp log] w1] eqn:Hrun. simpl.
  destruct (upload_runs ctx reader formData config client w resp log w1
              Hreader Hread Hparse Hclient Hrun) as (runs & Hruns & Hlog & Hresp).
  exists runs.*1. split; [done |]. split.
  - apply Forall2_fmap_r. eapply Forall2_impl; [exact Hruns |].
    intros file run Hfile. by apply upload_task_run in Hfile as [? _].
  - intros Hok. destruct Hresp as [[-> _] | (did & e & Hin & ->)]; [done |].
    apply list_elem_of_In, list_elem_of_lookup in Hin as [i Hi].
    destruct (Forall2_lookup_r _ _ _ _ _ Hruns Hi) as (file & _ & Hfile).
    apply upload_task_run in Hfile as (_ & [Hfulfils _] & _). simpl in Hfulfils.
    discriminate Hfulfils.
    apply List.Forall_forall. intros f Hf.
    rewrite List.Forall_forall in Hok. apply Hok.
    apply (interleaving_In _ _ f Hlog). exists did. split; [| done].
    apply in_map_iff. exists (did, Throw e). split; [done |].
    by eapply list_elem_of_In, list_elem_of_lookup_2.
Qed.

(** C6: a file part whose resolved bytes have length zero is skipped: its
    call fulfils without an upload, so no upload of any upload request is
    of no bytes (no object is written for such a file); and in a request
    that reaches the per-file processing the log is an interleaving of one
    log per file, each file leaving its own whatever the other files are
    (an empty file nothing but its read, a file with bytes its upload), and
    the answer is the 200 success whenever no read and no upload failed,
    empty files or not. *)
Theorem C6_zero_length_files_are_skipped :
  (forall client bucket path file data w rlog w1,
      resolve file w = (Normal (Some data), rlog, w1) -> length data = 0 ->
      upload_file client bucket path file w = (Normal tt, rlog, w1)
      /\ Forall (fun f => is_Uploaded f = false) rlog)
  /\ (forall ctx w c params outcome,
         In (Uploaded c params outcome) (upload ctx w).1.2 ->
         length (Body params) <> 0)
  /\ (forall ctx reader formData config client w,
         form_data ctx = Normal reader ->
         read reader upload_read_options = Normal formData ->
         JSON_parse (field_string (fields formData !! "config")) = Normal config ->
         createS3Client config = Normal client ->
         exists logs,
           interleaving logs (upload ctx w).1.2
           /\ Forall2 (file_log client (fields formData !! "bucket")
                         (fields formData !! "path"))
                      (default [] (files formData)) logs
           /\ (Forall (fun f => succeeded f = true) (upload ctx w).1.2 ->
               (upload ctx w).1.1
               = mkResponse 200 (object [("success", VBool true);
                                         ("message", VString "All files processed.")]))).
Proof.
  split; [| split].
  - intros client bucket path file data w rlog w1. apply upload_file_skips_empty.
  - intros ctx w c params outcome.
    destruct (upload_parsed_or_rejected ctx w)
      as [(reader & formData & config & client & Hreader & Hread & Hparse & Hclient)
         | [e ->]]; [| done].
    destruct (upload_processed ctx reader formData config client w
                Hreader Hread Hparse Hclient) as (logs & Hlog & Hlogs & _).
    intros (l & Hl & Hin)%(interleaving_In _ _ _ Hlog).
    apply list_elem_of_In, list_elem_of_lookup in Hl as [i Hi].
    destruct (Forall2_lookup_r _ _ _ _ _ Hlogs Hi) as (file & _ & Hfile).
    by eapply file_log_uploads.
  - apply upload_processed.
Qed.

(** C7 (amended): when the multipart reader, which the upload route calls
    with a maxFileSize of 100 MiB (104857600 bytes), rejects the body, as it
    does for a file above that size, the whole request fails with HTTP 500
    and the reader's own message, verbatim (the route adds no file name to
    it); this happens before any per-file processing: no file is read and
    nothing is uploaded. *)
Theorem C7_oversized_upload_rejected_by_reader ctx reader e w :
  form_data ctx = Normal reader ->
  read reader {| maxFileSize := 104857600 |} = Throw e ->
  upload ctx w = (mkResponse 500 (object [("error", VString (message e))]), [], w).
Proof.
  intros Hreader Hread. unfold upload, handle.
  rewrite (bind_lift_normal _ _ _ _ Hreader).
  change upload_read_options with {| maxFileSize := 104857600 |}.
  by rewrite (bind_lift_throw _ _ _ _ Hread).
Qed.

(** *** Further properties of the routes *)

(** X2: when the upload of a file fails, its task rejects with an Error
    that names the file and carries the message of the underlying error
    ("Unknown S3 error" when that message is empty). *)
Theorem X2_failed_upload_names_file client bucket path file data w rlog w1 uploadError w2 :
  resolve file w = (Normal (Some data), rlog, w1) ->
  length data <> 0 ->
  upload_done client (upload_params bucket path file data) w1 = (Throw uploadError, w2) ->
  upload_file client bucket path file w
  = (Throw (new_Error
              ("Failed to upload " +:+ originalName file +:+ ": "
               +:+ (if decide (message uploadError = "") then "Unknown S3 error"
                    else message uploadError))),
     rlog ++ [Uploaded client (upload_params bucket path file data) (Throw uploadError)],
     w2).
Proof.
  intros Hresolve Hlen Hdone. rewrite upload_file_unfold, Hresolve.
  apply Nat.eqb_neq in Hlen. rewrite Hlen. cbv zeta. rewrite Hdone.
  by destruct (message uploadError).
Qed.

(** X3: the object-listing route makes one ListObjectsV2 call at most, for
    the bucket and the prefix of the request with the delimiter "/", and
    never asks for a further page. *)
Theorem X3_objects_lists_one_page ctx w :
  (objects ctx w).1.2 = []
  \/ exists body client outcome,
      json ctx = Normal body
      /\ createS3Client (get body "config") = Normal client
      /\ (objects ctx w).1.2
         = [Sent client
              (ListObjectsV2Command
                 (object [("Bucket", get body "bucket"); ("Prefix", get body "prefix");
                          ("Delimiter", VString "/")]))
              outcome].
Proof.
  unfold objects, handle.
  destruct (json ctx) as [body | e] eqn:Hjson; cycle 1.
  { left. by rewrite (bind_lift_throw _ _ _ _ eq_refl). }
  rewrite (bind_lift_normal _ _ _ _ eq_refl).
  unfold destructure. destruct (nullish body) eqn:Hbody.
  { left. by rewrite (bind_lift_throw _ _ _ _ eq_refl). }
  rewrite (bind_lift_normal _ tt); [| done].
  destruct (createS3Client (get body "config")) as [client | e] eqn:Hclient; cycle 1.
  { left. by rewrite (bind_lift_throw _ _ _ _ eq_refl). }
  rewrite (bind_lift_normal _ _ _ _ eq_refl).
  right. exists body, client.
  unfold bind at 1, send at 1.
  destruct (s3_send client _ w) as [[data | e] w1]; [| by eexists].
  unfold bind, lift, ret.
  destruct (member data "Contents"); [| by eexists].
  destruct (member data "CommonPrefixes"); by eexists.
Qed.

(** X4: a listing in which the backend reports neither contents nor common
    prefixes is answered 200 with [{contents: [], commonPrefixes: []}]. *)
Theorem X4_empty_listing ctx body client data w w1 :
  json ctx = Normal body ->
  createS3Client (get body "config") = Normal client ->
  s3_send client
    (ListObjectsV2Command
       (object [("Bucket", get body "bucket"); ("Prefix", get body "prefix");
                ("Delimiter", VString "/")])) w
  = (Normal (VObject data), w1) ->
  data !! "Contents" = None ->
  data !! "CommonPrefixes" = None ->
  (objects ctx w).1.1
  = mkResponse 200 (object [("contents", VArray []); ("commonPrefixes", VArray [])]).
Proof.
  intros Hjson Hclient Hsend Hcontents Hprefixes. unfold objects, handle.
  enter_route Hjson Hclient.
  unfold bind at 1, send at 1. rewrite Hsend.
  unfold member, get. simpl nullish. cbv iota. rewrite Hcontents, Hprefixes.
  reflexivity.
Qed.

(** X5: the folder-creation route makes one PutObject call for a request it
    accepts: an object with an empty body at the key of the request. *)
Theorem X5_folder_is_an_empty_object ctx body client w :
  json ctx = Normal body ->
  createS3Client (get body "config") = Normal client ->
  exists outcome,
    (folders_create ctx w).1.2
    = [Sent client
         (PutObjectCommand
            (object [("Bucket", get body "bucket"); ("Key", get body "key");
                     ("Body", VString "")]))
         outcome].
Proof.
  intros Hjson Hclient. unfold folders_create, handle.
  enter_route Hjson Hclient.
  unfold bind at 1, send at 1.
  destruct (s3_send client _ w) as [[data | e] w1]; [| by eexists].
  unfold bind, lift, ret.
  destruct (ToString (get body "key")); by eexists.
Qed.

End Properties.

(** ** Properties across the routes *)

Section Coverage.
Context {W : Type} {runtime : Runtime W}.

Lemma stops_ret {A} (a : A) : stops_at_failure (W := W) (ret a).
Proof. intros w r log w1 [= <- <- <-] i f e Hi. done. Qed.

Lemma stops_throw {A} (e0 : exn) : stops_at_failure (W := W) (A := A) (throw e0).
Proof. intros w r log w1 [= <- <- <-] i f e Hi. done. Qed.

Lemma stops_lift {A} (c : completion A) : stops_at_failure (W := W) (lift c).
Proof. intros w r log w1 [= <- <- <-] i f e Hi. done. Qed.

Lemma stops_send client command : stops_at_failure (send client command).
Proof.
  intros w r log w1. unfold send.
  destruct (s3_send client command w) as [outcome w2]. intros [= <- <- <-].
  intros [| i] f e Hi Hf; [| done]. injection Hi as <-. by simpl in Hf.
Qed.

Lemma stops_bind {A C} (m : M W A) (k : A -> M W C) :
  stops_at_failure m -> (forall a, stops_at_failure (k a)) ->
  stops_at_failure (bind m k).
Proof.
  intros Hm Hk w r log w1. unfold bind.
  destruct (m w) as [[[a | e0] l1] w2] eqn:Hrun.
  - destruct (k a w2) as [[r2 l2] w3] eqn:Hrest. intros [= <- <- <-] i f e Hi Hf.
    destruct (decide (i < length l1)) as [Hlt | Hge].
    + rewrite lookup_app_l in Hi by done.
      by destruct (Hm _ _ _ _ Hrun i f e Hi Hf).
    + rewrite lookup_app_r in Hi by lia.
      destruct (Hk a _ _ _ _ Hrest _ f e Hi Hf) as [Hlen ->].
      split; [| done]. rewrite length_app. lia.
  - intros [= <- <- <-] i f e Hi Hf.
    by destruct (Hm _ _ _ _ Hrun i f e Hi Hf) as [Hlen [= ->]].
Qed.

Lemma stops_for_of {A} (l : list A) (body : A -> M W unit) :
  (forall x, stops_at_failure (body x)) -> stops_at_failure (for_of l body).
Proof.
  intros Hbody. induction l as [| x l IH]; [apply stops_ret |].
  simpl. apply stops_bind; [apply Hbody | by intros _].
Qed.

(** The try block of every route that reads a JSON body stops at the first
    failed call. *)
Ltac stops :=
  repeat first
    [ apply stops_ret | apply stops_throw | apply stops_lift | apply stops_send
    | apply stops_for_of; intros ?
    | apply stops_bind; [| intros ?]
    | match goal with |- stops_at_failure (if ?c then _ else _) => destruct c end ].

Lemma handle_stops (try : M W value) catch w :
  stops_at_failure try ->
  forall i f e,
    (handle try catch w).1.2 !! i = Some f -> failed_with f e ->
    length (handle try catch w).1.2 = S i /\ (handle try catch w).1.1 = catch e.
Proof.
  intros Htry i f e. unfold handle.
  destruct (try w) as [[r log] w1] eqn:Hrun.
  destruct r as [b | e0]; simpl; intros Hi Hf;
    by destruct (Htry _ _ _ _ Hrun i f e Hi Hf) as [Hlen [= <-]].
Qed.

Lemma api_in_routes path handler :
  api path = Some handler -> In (path, handler) routes.
Proof.
  unfold api. intros Hfound.
  destruct (list_find _ routes) as [[i [p h]] |] eqn:Hfind; [| done].
  injection Hfound as <-. apply list_find_Some in Hfind as (Hroute & Hpath & _).
  simpl in Hpath. subst p. apply list_elem_of_In, list_elem_of_lookup. eauto.
Qed.

(** Case analysis on the route a path reaches. *)
Ltac by_route H :=
  apply api_in_routes in H; unfold routes in H; simpl in H;
  repeat (destruct H as [[= <- <-] | H]); [.. | destruct H].

(** X7: on every route that reads a JSON body the calls are made one
    after the other and the first that fails ends the request: a failed call
    is the last effect of the log, and the response is the failure of the
    route carrying its message (400 on /connect, 500 elsewhere). *)
Theorem X7_routes_stop_at_first_failure path handler ctx w i f e :
  api path = Some handler ->
  path <> "/api/upload" ->
  (handler ctx w).1.2 !! i = Some f ->
  failed_with f e ->
  length (handler ctx w).1.2 = S i
  /\ (handler ctx w).1.1
     = if decide (path = "/api/connect")
       then mkResponse 400 (object [("success", VBool false);
                                    ("error", VString (message e))])
       else mkResponse 500 (object [("error", VString (message e))]).
Proof.
  intros Hroute. by_route Hroute; intros Hupload; try done.
  all: try rewrite decide_False by done; try rewrite decide_True by done.
  all: apply handle_stops; stops.
Qed.

Lemma createS3Client_throws config e :
  createS3Client config = Throw e -> e = new_Error missing_configuration.
Proof.
  unfold createS3Client.
  destruct (_ || _); [by intros [= <-] | discriminate].
Qed.

(** X6: on every route, a request whose configuration [createS3Client]
    refuses is answered with the failure of the route (400 on /connect, 500
    elsewhere) carrying the configuration message, and nothing is done to
    the outside world: no command is sent, no file is read, nothing is
    uploaded. *)
Theorem X6_refused_configuration_reaches_no_backend :
  (forall path handler ctx parsed e w,
      api path = Some handler ->
      path <> "/api/upload" ->
      json ctx = Normal parsed ->
      nullish parsed = false ->
      createS3Client (get parsed "config") = Throw e ->
      handler ctx w
      = (if decide (path = "/api/connect")
         then mkResponse 400
                (object [("success", VBool false);
                         ("error",
                          VString "Missing AWS configuration. Region, Access Key, and Secret Key are required.")])
         else mkResponse 500
                (object [("error",
                          VString "Missing AWS configuration. Region, Access Key, and Secret Key are required.")]),
         [], w))
  /\ (forall ctx reader formData config e w,
         form_data ctx = Normal reader ->
         read reader upload_read_options = Normal formData ->
         JSON_parse (field_string (fields formData !! "config")) = Normal config ->
         createS3Client config = Throw e ->
         upload ctx w
         = (mkResponse 500
              (object [("error",
                        VString "Missing AWS configuration. Region, Access Key, and Secret Key are required.")]),
            [], w)).
Proof.
  split.
  - intros path handler ctx parsed e w Hroute Hupload Hjson Hparsed Hclient.
    pose proof (createS3Client_throws _ _ Hclient) as ->.
    by_route Hroute; try done.
    all: try rewrite decide_False by done; try rewrite decide_True by done.
    all: unfold connect, buckets, objects, buckets_create, folders_create, delete, handle;
      rewrite (bind_lift_normal _ _ _ _ Hjson);
      unfold member, destructure; rewrite Hparsed;
      rewrite (bind_lift_normal _ _ _ _ eq_refl);
      by rewrite (bind_lift_throw _ _ _ _ Hclient).
  - intros ctx reader formData config e w Hreader Hread Hparse Hclient.
    pose proof (createS3Client_throws _ _ Hclient) as ->.
    unfold upload, handle.
    rewrite (bind_lift_normal _ _ _ _ Hreader).
    rewrite (bind_lift_normal _ _ _ _ Hread).
    rewrite (bind_lift_normal _ _ _ _ Hparse).
    by rewrite (bind_lift_throw _ _ _ _ Hclient).
Qed.

Lemma yields_ret {A} (P : A -> Prop) (a : A) : P a -> yields (W := W) P (ret a).
Proof. by intros HP w a' log w1 [= <- _ _]. Qed.

Lemma yields_bind {A C} (P : C -> Prop) (m : M W A) (k : A -> M W C) :
  (forall a, yields P (k a)) -> yields P (bind m k).
Proof.
  intros Hk w c log w1. unfold bind.
  destruct (m w) as [[[a | e] l1] w2]; [| done].
  destruct (k a w2) as [[r l2] w3] eqn:Hrest. intros [= -> _ _].
  by eapply Hk.
Qed.

Lemma stops_succeeded {A} (m : M W A) w a log w1 :
  stops_at_failure m -> m w = (Normal a, log, w1) ->
  Forall (fun f => succeeded f = true) log.
Proof.
  intros Hm Hrun. apply Forall_lookup_2. intros i f Hi.
  destruct (succeeded f) eqn:Hf; [done |].
  assert (exists e, failed_with f e) as [e He].
  { destruct f as [? ? [? | e] | ? ? [? | e] | ? [? | e]]; try done; by exists e. }
  by destruct (Hm _ _ _ _ Hrun i f e Hi He) as [_ [=]].
Qed.

Lemma handle_error_key (try : M W value) catch w :
  yields (fun b => get b "error" = VUndefined) try ->
  stops_at_failure try ->
  (status (handle try catch w).1.1 = 200
   /\ get (body (handle try catch w).1.1) "error" = VUndefined
   /\ Forall (fun f => succeeded f = true) (handle try catch w).1.2)
  \/ (exists e, (handle try catch w).1.1 = catch e).
Proof.
  intros Htry Hstops. unfold handle.
  destruct (try w) as [[[b | e] log] w1] eqn:Hrun; simpl.
  - left. split; [done |]. split; [by eapply Htry | by eapply stops_succeeded].
  - right. by exists e.
Qed.

(** An upload answered 200 made no read and no upload that failed. *)
Lemma upload_error_key ctx w :
  (status (upload ctx w).1.1 = 200
   /\ get (body (upload ctx w).1.1) "error" = VUndefined
   /\ Forall (fun f => succeeded f = true) (upload ctx w).1.2)
  \/ (exists e, (upload ctx w).1.1 = internal_error e).
Proof.
  destruct (upload_parsed_or_rejected ctx w)
    as [(reader & formData & config & client & Hreader & Hread & Hparse & Hclient)
       | [e ->]]; [| right; by exists e].
  destruct (upload ctx w) as [[resp log] w1] eqn:Hrun.
  destruct (upload_runs ctx reader formData config client w resp log w1
              Hreader Hread Hparse Hclient Hrun)
    as (runs & Hruns & Hlog & [[-> Hall] | (did & e & _ & ->)]);
    [left | right; by exists e].
  split; [done |]. split; [done |]. simpl.
  apply List.Forall_forall. intros f (l & Hl & Hf)%(interleaving_In _ _ _ Hlog).
  apply list_elem_of_In, list_elem_of_fmap in Hl as (run & -> & Hrun').
  apply list_elem_of_lookup in Hrun' as [i Hi].
  destruct (Forall2_lookup_r _ _ _ _ _ Hruns Hi) as (file & _ & Hfile).
  apply upload_task_run in Hfile as (_ & [_ Hfulfils] & _).
  rewrite List.Forall_forall in Hall.
  pose proof (Hfulfils (Hall run ltac:(by eapply list_elem_of_In, list_elem_of_lookup_2)))
    as Hok.
  rewrite List.Forall_forall in Hok. by apply Hok.
Qed.

(** X15: on every route of the API the status and the [error] property
    tell failure from success: a 200 response has no [error] property and
    is given only when every call the request made (commands, reads of
    files, uploads) succeeded; every other response is the 500 whose body
    is an [error] string and nothing else (on /connect the 400 whose body is
    [success: false] and an [error] string). *)
Theorem X15_error_property_tells_failure path handler ctx w :
  api path = Some handler ->
  (status (handler ctx w).1.1 = 200
   /\ get (body (handler ctx w).1.1) "error" = VUndefined
   /\ Forall (fun f => succeeded f = true) (handler ctx w).1.2)
  \/ (exists m : string,
         (handler ctx w).1.1
         = if decide (path = "/api/connect")
           then mkResponse 400 (object [("success", VBool false); ("error", VString m)])
           else mkResponse 500 (object [("error", VString m)])).
Proof.
  intros Hroute. by_route Hroute.
  all: try rewrite decide_False by done; try rewrite decide_True by done.
  6: { destruct (upload_error_key ctx w) as [Hok | [e ->]];
         [by left | right; by exists (message e)]. }
  all: unfold connect, buckets, objects, buckets_create, folders_create, delete;
    match goal with
    | |- context [handle ?try ?catch ?w0] =>
        destruct (handle_error_key try catch w0) as [Hok | [e ->]];
        [ repeat (apply yields_bind; intros ?); apply yields_ret; by vm_compute
        | stops
        | by left
        | right; by exists (message e) ]
    end.
Qed.

(** X9: the connection test and the bucket listing do the same thing to
    the backend: on the same request and world they leave the same log and
    the same world, and when the connection test fails so does the listing,
    with the same message (under 400 for the one, 500 for the other). *)
Theorem X9_connect_and_buckets_make_the_same_call ctx w :
  (connect ctx w).1.2 = (buckets ctx w).1.2
  /\ (connect ctx w).2 = (buckets ctx w).2
  /\ (status (connect ctx w).1.1 = 400 ->
      exists e,
        (connect ctx w).1.1
        = mkResponse 400 (object [("success", VBool false);
                                  ("error", VString (message e))])
        /\ (buckets ctx w).1.1
           = mkResponse 500 (object [("error", VString (message e))])).
Proof.
  unfold connect, buckets, handle.
  destruct (json ctx) as [parsed | e]; cycle 1.
  { rewrite !(bind_lift_throw _ _ _ _ eq_refl). repeat split. eauto. }
  rewrite !(bind_lift_normal _ _ _ _ eq_refl).
  destruct (member parsed "config") as [config | e]; cycle 1.
  { rewrite !(bind_lift_throw _ _ _ _ eq_refl). repeat split. eauto. }
  rewrite !(bind_lift_normal _ _ _ _ eq_refl).
  destruct (createS3Client config) as [client | e]; cycle 1.
  { rewrite !(bind_lift_throw _ _ _ _ eq_refl). repeat split. eauto. }
  rewrite !(bind_lift_normal _ _ _ _ eq_refl).
  unfold bind, send, lift, ret.
  destruct (s3_send client _ w) as [[data | e] w1].
  - destruct (member data "Buckets"); by repeat split.
  - repeat split. eauto.
Qed.

Lemma partition_lengths items :
  length (object_items items) + length (bucket_items items) = length items.
Proof.
  unfold object_items, bucket_items. induction items as [| item items IH]; [done |].
  rewrite !filter_cons. destruct (truthy (get item "isBucket")); simpl; lia.
Qed.

Lemma bucket_calls_commands client bs outcomes :
  length outcomes = length bs ->
  omap sent_command (bucket_calls client bs outcomes) = map delete_bucket_command bs.
Proof.
  unfold bucket_calls. revert outcomes.
  induction bs as [| b bs IH]; intros [| o outcomes]; try done.
  intros [= Hlen]. simpl. by rewrite IH.
Qed.

Lemma bucket_calls_all_succeeded client bs outcomes :
  Forall (fun o => is_normal o = true) outcomes ->
  Forall (fun f => succeeded f = true) (bucket_calls client bs outcomes).
Proof.
  unfold bucket_calls. intros Hall. revert bs.
  induction Hall as [| o outcomes Ho _ IH]; intros [| b bs]; try done.
  simpl. by constructor.
Qed.

Lemma loop_result_200 bs outcomes resp :
  loop_result bs outcomes resp -> status resp = 200 ->
  resp = mkResponse 200 items_deleted
  /\ length outcomes = length bs
  /\ Forall (fun o => is_normal o = true) outcomes.
Proof. by intros [_ [? | (e & before & _ & _ & ->)]]. Qed.

(** X8: a delete request answered 200 was carried out in full: every call
    made succeeded, the object items (if any) went in one delete-objects
    call, every bucket item got its delete-bucket call, in input order, and
    each item of the request is counted in one of the two. *)
Theorem X8_delete_success_covers_every_item ctx w resp log w1 :
  delete ctx w = (resp, log, w1) ->
  status resp = 200 ->
  exists parsed client items,
    json ctx = Normal parsed
    /\ createS3Client (get parsed "config") = Normal client
    /\ get parsed "items" = VArray items
    /\ Forall (fun f => succeeded f = true) log
    /\ omap sent_command log
       = (if decide (object_items items = []) then []
          else [delete_objects_command (get parsed "bucket") (object_items items)])
         ++ map delete_bucket_command (bucket_items items)
    /\ length (object_items items) + length (bucket_items items) = length items.
Proof.
  intros Hrun Hstatus.
  destruct (delete_parsed_or_rejected ctx w)
    as [(parsed & client & items & Hjson & Hclient & Hitems & Hnull) | [e He]].
  2: { rewrite He in Hrun. by injection Hrun as <- _ _. }
  rewrite (delete_parsed ctx parsed client items w Hjson Hclient Hitems Hnull) in Hrun.
  exists parsed, client, items. repeat split; try done; try apply partition_lengths.
  all: apply delete_partitioned_spec in Hrun
      as [(Hnil & outcomes & -> & Hres)
         | [(_ & _ & -> & _) | (Hobjs & _ & outcome & outcomes & -> & Hres)]];
    try done.
  - destruct (loop_result_200 _ _ _ Hres Hstatus) as (_ & _ & Hall).
    by apply bucket_calls_all_succeeded.
  - destruct outcome as [data | e]; [| by destruct Hres as [_ ->]].
    destruct (loop_result_200 _ _ _ Hres Hstatus) as (_ & _ & Hall).
    constructor; [done | by apply bucket_calls_all_succeeded].
  - destruct (loop_result_200 _ _ _ Hres Hstatus) as (_ & Hlen & _).
    rewrite decide_True by done. by apply bucket_calls_commands.
  - destruct outcome as [data | e]; [| by destruct Hres as [_ ->]].
    destruct (loop_result_200 _ _ _ Hres Hstatus) as (_ & Hlen & _).
    rewrite decide_False by done. simpl. f_equal. by apply bucket_calls_commands.
Qed.

(** X12: a delete request whose items are all bucket items needs no bucket
    field: whatever that field is, no delete-objects call is made; the calls
    are the delete-bucket calls for the items, in order, and they stop at
    the first that fails: a failed call is the last one made and the answer
    is then the 500 with its message; when none fails each item got its call
    and the answer is the 200 success. *)
Theorem X12_bucket_only_delete_needs_no_bucket_field ctx parsed client items w resp log w1 :
  json ctx = Normal parsed ->
  createS3Client (get parsed "config") = Normal client ->
  get parsed "items" = VArray items ->
  Forall (fun item => nullish item = false /\ truthy (get item "isBucket") = true) items ->
  delete ctx w = (resp, log, w1) ->
  exists outcomes,
    log = bucket_calls client items outcomes
    /\ length outcomes <= length items
    /\ (forall i f e,
           log !! i = Some f -> failed_with f e ->
           length log = S i
           /\ resp = mkResponse 500 (object [("error", VString (message e))]))
    /\ (Forall (fun f => succeeded f = true) log ->
        length outcomes = length items
        /\ resp = mkResponse 200
                    (object [("success", VBool true);
                             ("message", VString "Items deleted successfully.")])).
Proof.
  intros Hjson Hclient Hitems Hall Hrun.
  assert (forall i f e,
             log !! i = Some f -> failed_with f e ->
             length log = S i /\ resp = internal_error e) as Hstops.
  { intros i f e Hi Hf.
    assert (log = (delete ctx w).1.2) as Hlog by (by rewrite Hrun).
    assert (resp = (delete ctx w).1.1) as Hresp by (by rewrite Hrun).
    rewrite Hlog in Hi |- *. rewrite Hresp.
    revert Hi Hf. apply handle_stops. stops. }
  revert Hrun.
  assert (Forall (fun item => nullish item = false) items) as Hnull.
  { eapply Forall_impl; [exact Hall | by intros item []]. }
  rewrite (delete_parsed ctx parsed client items w Hjson Hclient Hitems Hnull).
  assert (object_items items = [] /\ bucket_items items = items) as [-> ->].
  { unfold object_items, bucket_items. clear -Hall.
    induction Hall as [| item items [_ Hitem] _ [IH1 IH2]]; [done |].
    rewrite filter_cons_False by (rewrite Hitem; done).
    by rewrite filter_cons_True, IH1, IH2. }
  intros [(_ & outcomes & -> & Hres) | [(? & _) | (? & _)]]%delete_partitioned_spec;
    try done.
  exists outcomes. split; [done |]. split; [by destruct Hres |]. split; [done |].
  intros Hok. apply loop_result_success; [done |].
  eapply bucket_calls_succeeded; [by destruct Hres | done].
Qed.



(** X14: an upload request with an accepted configuration and no file part
    is answered with the 200 success, and nothing is read or uploaded. *)
Theorem X14_upload_of_no_file_succeeds ctx reader formData config client w :
  form_data ctx = Normal reader ->
  read reader upload_read_options = Normal formData ->
  JSON_parse (field_string (fields formData !! "config")) = Normal config ->
  createS3Client config = Normal client ->
  default [] (files formData) = [] ->
  upload ctx w
  = (mkResponse 200 (object [("success", VBool true);
                             ("message", VString "All files processed.")]),
     [], w).
Proof.
  intros Hreader Hread Hparse Hclient Hfiles.
  rewrite (upload_parsed ctx reader formData config client w Hreader Hread Hparse Hclient).
  by rewrite Hfiles.
Qed.

(** X10: an upload request that reaches the per-file processing is
    answered with the 200 success, or with a 500 whose error is the
    rejection of the task of one of its files: the error of the failed read
    of that file, or "Failed to upload <name>: <message>" for its failed
    upload, the read or the upload being in the log of the request. *)
Theorem X10_upload_failure_is_a_task_rejection
    ctx reader formData config client w resp log w1 :
  form_data ctx = Normal reader ->
  read reader upload_read_options = Normal formData ->
  JSON_parse (field_string (fields formData !! "config")) = Normal config ->
  createS3Client config = Normal client ->
  upload ctx w = (resp, log, w1) ->
  resp = mkResponse 200 (object [("success", VBool true);
                                 ("message", VString "All files processed.")])
  \/ exists file flog e,
      In file (default [] (files formData))
      /\ task_rejection client (fields formData !! "bucket") (fields formData !! "path")
           file flog e
      /\ (forall f, In f flog -> In f log)
      /\ resp = mkResponse 500 (object [("error", VString (message e))]).
Proof.
  intros Hreader Hread Hparse Hclient Hrun.
  destruct (upload_runs ctx reader formData config client w resp log w1
              Hreader Hread Hparse Hclient Hrun)
    as (runs & Hruns & Hlog & [[-> _] | (flog & e & Hin & ->)]); [by left | right].
  apply list_elem_of_In, list_elem_of_lookup in Hin as [i Hi].
  destruct (Forall2_lookup_r _ _ _ _ _ Hruns Hi) as (file & Hfile & Hcall).
  apply upload_task_run in Hcall as (_ & _ & Hrejects).
  exists file, flog, e. split; [by eapply list_elem_of_In, list_elem_of_lookup_2 |].
  split; [by apply Hrejects |]. split; [| done].
  intros f Hf. apply (interleaving_In _ _ f Hlog). exists flog. split; [| done].
  apply in_map_iff. exists (flog, Throw e). split; [done |].
  by eapply list_elem_of_In, list_elem_of_lookup_2.
Qed.

Lemma file_log_upload_params client bucket path file log c params outcome :
  file_log client bucket path file log ->
  In (Uploaded c params outcome) log ->
  c = client /\ exists data, length data <> 0 /\ params = upload_params bucket path file data.
Proof.
  intros Hlog Hin.
  destruct Hlog as [data ? ? | data o ? ? | ? ? | name e ? ?
                   | name data ? ? ? | name data o ? ? ?];
    simpl in Hin; repeat (destruct Hin as [Hin | Hin]); try done;
    injection Hin as <- <- _; eauto.
Qed.

(** X11: every upload of an upload request goes through the client built
    from the request's configuration, to the bucket field of the form, with
    checksum mode "DISABLED" and a body that is not empty; its key is the
    path field followed by the original name of one of the files, taken as
    they are ("undefined" standing for a missing path field), and its
    content type is that file's. *)
Theorem X11_upload_parameters
    ctx reader formData config client w c params outcome :
  form_data ctx = Normal reader ->
  read reader upload_read_options = Normal formData ->
  JSON_parse (field_string (fields formData !! "config")) = Normal config ->
  createS3Client config = Normal client ->
  In (Uploaded c params outcome) (upload ctx w).1.2 ->
  c = client
  /\ Bucket params = fields formData !! "bucket"
  /\ ChecksumMode params = "DISABLED"
  /\ length (Body params) <> 0
  /\ exists file,
      In file (default [] (files formData))
      /\ ContentType params = contentType file
      /\ Key params
         = match fields formData !! "path" with
           | Some path => path +:+ originalName file
           | None => "undefined" +:+ originalName file
           end.
Proof.
  intros Hreader Hread Hparse Hclient.
  destruct (upload_processed ctx reader formData config client w
              Hreader Hread Hparse Hclient) as (logs & Hlog & Hlogs & _).
  intros (l & Hl & Hin)%(interleaving_In _ _ _ Hlog).
  apply list_elem_of_In, list_elem_of_lookup in Hl as [i Hi].
  destruct (Forall2_lookup_r _ _ _ _ _ Hlogs Hi) as (file & Hfile & Hflog).
  destruct (file_log_upload_params _ _ _ _ _ _ _ _ Hflog Hin) as (-> & data & Hlen & ->).
  repeat split; try done.
  exists file. split; [by eapply list_elem_of_In, list_elem_of_lookup_2 |].
  split; [done |]. simpl. by destruct (fields formData !! "path").
Qed.

End Coverage.

(** ** Examples *)

Lemma C9_witness :
  delete (runtime := counting None VNull) (delete_request None []) 0
  = (mkResponse 200 (object [("success", VBool true);
                             ("message", VString "Items deleted successfully.")]),
     [], 0).
Proof.
  eapply C9_delete_nothing_succeeds;
    [reflexivity | by vm_compute | by vm_compute].
Defined.

(** Without a valid configuration the failure is the configuration error,
    and with no items at all the request succeeds. *)
Lemma C4_counterexample :
  (let ctx := json_request (object [("items", VArray [object [("Key", VString "a.txt")]])]) in
   exists e,
     delete (runtime := counting None VNull) ctx 0 = (internal_error e, [], 0)
     /\ message e <> "Bucket name is required for deleting objects.")
  /\ delete (runtime := counting None VNull) (delete_request None []) 0
     = (mkResponse 200 items_deleted, [], 0).
Proof.
  split; [| by vm_compute].
  exists (new_Error missing_configuration). split; [by vm_compute | discriminate].
Qed.

Lemma C4_witness :
  delete (runtime := counting None VNull)
         (delete_request None
            [object [("Key", VString "a.txt")]; object [("Key", VString "b.txt")]]) 0
  = (mkResponse 500
       (object [("error", VString "Bucket name is required for deleting objects.")]),
     [], 0).
Proof.
  eapply C4_delete_objects_requires_bucket;
    [reflexivity | by vm_compute | by vm_compute | discriminate
    | repeat constructor; by vm_compute | by vm_compute].
Defined.

(** With a bucket name and a backend that refuses nothing, the two object
    items go in one call and the two buckets follow, in their order. *)
Example delete_mixed_items :
  delete (runtime := counting None VNull) (delete_request (Some "photos") mixed_items) 0
  = (mkResponse 200 items_deleted,
     [ Sent valid_client
         (DeleteObjectsCommand
            (object [("Bucket", VString "photos");
                     ("Delete",
                      object [("Objects",
                               VArray [object [("Key", VString "notes/a.txt")];
                                       object [("Key", VString "notes/b.txt")]])])]))
         (Normal (object []));
       Sent valid_client (DeleteBucketCommand (object [("Bucket", VString "old-logs")]))
         (Normal (object []));
       Sent valid_client (DeleteBucketCommand (object [("Bucket", VString "scratch")]))
         (Normal (object [])) ],
     3).
Proof. by vm_compute. Qed.

(** Object items and bucket items, but no bucket name: no call is made. *)
Lemma C3_counterexample :
  let ctx := delete_request None mixed_items in
  (length (object_items mixed_items) = 2 /\ length (bucket_items mixed_items) = 2)
  /\ delete (runtime := counting None VNull) ctx 0
     = (internal_error (new_Error bucket_name_required), [], 0).
Proof. by vm_compute. Qed.

Lemma C3_witness :
  let ctx := delete_request (Some "photos") mixed_items in
  let run := delete (runtime := counting None VNull) ctx 0 in
  exists outcome outcomes,
    run.1.2 = Sent valid_client
                (delete_objects_command (VString "photos") (object_items mixed_items))
                outcome
              :: bucket_calls valid_client (bucket_items mixed_items) outcomes
    /\ length outcomes <= length (bucket_items mixed_items)
    /\ (forall i f e,
           run.1.2 !! i = Some f -> failed_with f e ->
           length run.1.2 = S i /\ run.1.1 = internal_error e)
    /\ (Forall (fun f => succeeded f = true) run.1.2 ->
        length outcomes = length (bucket_items mixed_items)
        /\ run.1.1 = mkResponse 200
                       (object [("success", VBool true);
                                ("message", VString "Items deleted successfully.")])).
Proof.
  intros ctx run.
  apply (C3_delete_objects_then_buckets (runtime := counting None VNull) ctx
           (delete_body (Some "photos") mixed_items)
           _ mixed_items 0 run.1.1 run.1.2 run.2);
    [reflexivity | by vm_compute | by vm_compute | by vm_compute
    | repeat constructor | by vm_compute | by vm_compute | by vm_compute].
Defined.

Lemma C10_witness :
  let ctx := delete_request (Some "photos") mixed_items in
  let run := delete (runtime := counting (Some 1) VNull) ctx 0 in
  let failed :=
    Sent valid_client
         (DeleteBucketCommand (object [("Bucket", VString "old-logs")]))
         (Throw access_denied) in
  bucket_deletions run.1.2 !! 0 = Some failed
  /\ (exists client outcomes,
         bucket_deletions run.1.2 = bucket_calls client (requested_buckets ctx) outcomes
         /\ length outcomes = 1
         /\ 1 <= length (requested_buckets ctx)
         /\ outcomes !! 0 = Some (Throw access_denied))
  /\ length (bucket_deletions run.1.2) = 1
  /\ run.1.1 = mkResponse 500 (object [("error", VString "Access Denied")]).
Proof.
  intros ctx run failed.
  split; [by vm_compute |].
  apply (C10_failed_bucket_deletion_stops_loop (runtime := counting (Some 1) VNull)
           ctx 0 run.1.1 run.1.2 run.2 0 failed access_denied);
    [by vm_compute | by vm_compute | reflexivity].
Defined.

(** The two files of [two_files] are read; only the one with bytes is
    uploaded, and the request succeeds. *)
Example upload_two_files :
  upload (runtime := counting None valid_config) (form_request (reader_of two_files)) 0
  = (mkResponse 200 all_files_processed,
     [ FileRead "/tmp/upload-1" (Normal []);
       FileRead "/tmp/upload-2" (Normal [Byte.x68; Byte.x69]);
       Uploaded valid_client
         {| Bucket := Some "photos"; Key := "2024/hi.txt";
            Body := [Byte.x68; Byte.x69]; ContentType := "text/plain";
            ChecksumMode := "DISABLED" |}
         (Normal tt) ],
     1).
Proof. by vm_compute. Qed.

(** Two spooled files with bytes: both reads are issued before either
    upload, each call running to its first await before any goes on. *)
Example upload_reads_before_uploads :
  upload (runtime := counting None valid_config)
         (form_request (reader_of two_spooled_files)) 0
  = (mkResponse 200 all_files_processed,
     [ FileRead "/tmp/upload-2" (Normal [Byte.x68; Byte.x69]);
       FileRead "/tmp/upload-3" (Normal [Byte.x68; Byte.x6f]);
       Uploaded valid_client
         {| Bucket := Some "photos"; Key := "2024/hi.txt";
            Body := [Byte.x68; Byte.x69]; ContentType := "text/plain";
            ChecksumMode := "DISABLED" |}
         (Normal tt);
       Uploaded valid_client
         {| Bucket := Some "photos"; Key := "2024/ho.txt";
            Body := [Byte.x68; Byte.x6f]; ContentType := "text/plain";
            ChecksumMode := "DISABLED" |}
         (Normal tt) ],
     2).
Proof. by vm_compute. Qed.

(** A spooled file before a file held in memory: the upload of the second
    is issued while the first is being read, so when the world refuses the
    first upload made to it, the answer names the second file. *)
Example upload_of_buffered_file_first :
  upload (runtime := counting (Some 0) valid_config)
         (form_request (reader_of spooled_and_buffered)) 0
  = (mkResponse 500 (object [("error", VString "Failed to upload ho.txt: Access Denied")]),
     [ FileRead "/tmp/upload-2" (Normal [Byte.x68; Byte.x69]);
       Uploaded valid_client
         {| Bucket := Some "photos"; Key := "2024/ho.txt";
            Body := [Byte.x68; Byte.x6f]; ContentType := "text/plain";
            ChecksumMode := "DISABLED" |}
         (Throw access_denied);
       Uploaded valid_client
         {| Bucket := Some "photos"; Key := "2024/hi.txt";
            Body := [Byte.x68; Byte.x69]; ContentType := "text/plain";
            ChecksumMode := "DISABLED" |}
         (Normal tt) ],
     2).
Proof. by vm_compute. Qed.

Lemma C6_witness :
  let ctx := form_request (reader_of two_files) in
  let client := valid_client in
  let run := upload (runtime := counting None valid_config) ctx 0 in
  exists logs,
    interleaving logs run.1.2
    /\ Forall2 (file_log client (Some "photos") (Some "2024/"))
               (default [] (files two_files)) logs
    /\ (Forall (fun f => succeeded f = true) run.1.2 ->
        run.1.1 = mkResponse 200 (object [("success", VBool true);
                                          ("message", VString "All files processed.")])).
Proof.
  intros ctx client run.
  apply (proj2 (proj2 (C6_zero_length_files_are_skipped
                         (runtime := counting None valid_config)))
           ctx (reader_of two_files) two_files valid_config client 0);
    [reflexivity | reflexivity | reflexivity | by vm_compute].
Defined.

(** The route passes on what the reader says of an oversized part: with the
    framework's message the response names the limit, not the file. *)
Lemma C7_counterexample :
  let parts := [("small.txt", 3%N); ("big.bin", 104857601%N)] in
  let ctx :=
    form_request
      (sized_reader {[ "config" := "{ }"; "bucket" := "photos"; "path" := "2024/" ]} parts) in
  exists msg,
    upload (runtime := counting None valid_config) ctx 0
    = (mkResponse 500 (object [("error", VString msg)]), [], 0)
    /\ forall pre post, msg <> pre +:+ "big.bin" +:+ post.
Proof.
  exists "File size exceeds limit of 104857600 bytes.". split; [by vm_compute |].
  intros pre post Hmsg.
  pose proof (includes_append pre "big.bin" post) as Hincludes.
  rewrite <- Hmsg in Hincludes. by vm_compute in Hincludes.
Qed.

Lemma C7_witness :
  let parts := [("small.txt", 3%N); ("big.bin", 104857601%N)] in
  let ctx :=
    form_request
      (sized_reader {[ "config" := "{ }"; "bucket" := "photos"; "path" := "2024/" ]} parts) in
  upload (runtime := counting None valid_config) ctx 0
  = (mkResponse 500
       (object [("error", VString "File size exceeds limit of 104857600 bytes.")]),
     [], 0).
Proof.
  intros parts ctx.
  apply (C7_oversized_upload_rejected_by_reader (runtime := counting None valid_config)
           ctx
           (sized_reader {[ "config" := "{ }"; "bucket" := "photos"; "path" := "2024/" ]} parts)
           (mkExn "PayloadTooLargeError" "File size exceeds limit of 104857600 bytes.") 0);
    [reflexivity | by vm_compute].
Defined.



Lemma X2_witness :
  let client := new_S3Client (object []) in
  let file :=
    {| content := Some [Byte.x68; Byte.x69]; contentType := "text/plain";
       filename := None; originalName := "hi.txt" |} in
  upload_file (runtime := counting (Some 0) VNull) client (Some "photos") (Some "2024/") file 0
  = (Throw (new_Error
              ("Failed to upload " +:+ originalName file +:+ ": "
               +:+ (if decide (message access_denied = "") then "Unknown S3 error"
                    else message access_denied))),
     [] ++ [Uploaded client
              (upload_params (Some "photos") (Some "2024/") file [Byte.x68; Byte.x69])
              (Throw access_denied)],
     1).
Proof.
  intros client file.
  apply (X2_failed_upload_names_file (runtime := counting (Some 0) VNull)
           client (Some "photos") (Some "2024/") file [Byte.x68; Byte.x69] 0 [] 0
           access_denied 1);
    [reflexivity | discriminate | reflexivity].
Defined.

Lemma X4_witness :
  (objects (runtime := counting None VNull)
     (json_request (object [("config", valid_config); ("bucket", VString "photos");
                            ("prefix", VString "")])) 0).1.1
  = mkResponse 200 (object [("contents", VArray []); ("commonPrefixes", VArray [])]).
Proof.
  eapply (X4_empty_listing (runtime := counting None VNull)
            _ (object [("config", valid_config); ("bucket", VString "photos");
                       ("prefix", VString "")]) _ ∅ 0 1);
    [reflexivity | by vm_compute | by vm_compute | reflexivity | reflexivity].
Defined.

Lemma X5_witness :
  let body := object [("config", valid_config); ("bucket", VString "photos");
                      ("key", VString "2024/")] in
  exists outcome,
    (folders_create (runtime := counting None VNull) (json_request body) 0).1.2
    = [Sent valid_client
         (PutObjectCommand
            (object [("Bucket", VString "photos"); ("Key", VString "2024/");
                     ("Body", VString "")]))
         outcome].
Proof.
  intros body.
  destruct (X5_folder_is_an_empty_object (runtime := counting None VNull)
              (json_request body) body valid_client 0)
    as [outcome Hlog]; [reflexivity | by vm_compute |].
  exists outcome. rewrite Hlog. by vm_compute.
Defined.

Lemma X6_witness :
  delete (runtime := counting None VNull)
         (json_request (object [("items", VArray [])])) 0
  = (mkResponse 500
       (object [("error",
                 VString "Missing AWS configuration. Region, Access Key, and Secret Key are required.")]),
     [], 0).
Proof.
  exact (proj1 (X6_refused_configuration_reaches_no_backend
                  (runtime := counting None VNull))
           "/api/delete" delete (json_request (object [("items", VArray [])]))
           (object [("items", VArray [])]) (new_Error missing_configuration) 0
           eq_refl ltac:(discriminate) eq_refl eq_refl ltac:(by vm_compute)).
Defined.

Lemma X7_witness :
  let run :=
    delete (runtime := counting (Some 1) VNull)
           (delete_request (Some "photos") mixed_items) 0 in
  length run.1.2 = 2
  /\ run.1.1
     = (if decide ("/api/delete" = "/api/connect")
        then mkResponse 400 (object [("success", VBool false);
                                     ("error", VString (message access_denied))])
        else mkResponse 500 (object [("error", VString (message access_denied))])).
Proof.
  intros run.
  apply (X7_routes_stop_at_first_failure (runtime := counting (Some 1) VNull)
           "/api/delete" delete (delete_request (Some "photos") mixed_items) 0 1
           (Sent valid_client
                 (DeleteBucketCommand (object [("Bucket", VString "old-logs")]))
                 (Throw access_denied))
           access_denied);
    [reflexivity | discriminate | by vm_compute | reflexivity].
Defined.

Lemma X8_witness :
  let ctx := delete_request (Some "photos") mixed_items in
  let run := delete (runtime := counting None VNull) ctx 0 in
  exists parsed client items,
    json ctx = Normal parsed
    /\ createS3Client (get parsed "config") = Normal client
    /\ get parsed "items" = VArray items
    /\ Forall (fun f => succeeded f = true) run.1.2
    /\ omap sent_command run.1.2
       = (if decide (object_items items = []) then []
          else [delete_objects_command (get parsed "bucket") (object_items items)])
         ++ map delete_bucket_command (bucket_items items)
    /\ length (object_items items) + length (bucket_items items) = length items.
Proof.
  intros ctx run.
  apply (X8_delete_success_covers_every_item (runtime := counting None VNull)
           ctx 0 run.1.1 run.1.2 run.2);
    [by vm_compute | by vm_compute].
Defined.

Lemma X10_witness :
  let ctx := form_request (reader_of two_files) in
  let run := upload (runtime := counting (Some 0) valid_config) ctx 0 in
  run.1.1 = mkResponse 200 (object [("success", VBool true);
                                    ("message", VString "All files processed.")])
  \/ exists file flog e,
      In file (default [] (files two_files))
      /\ task_rejection valid_client (Some "photos") (Some "2024/") file flog e
      /\ (forall f, In f flog -> In f run.1.2)
      /\ run.1.1 = mkResponse 500 (object [("error", VString (message e))]).
Proof.
  intros ctx run.
  apply (X10_upload_failure_is_a_task_rejection (runtime := counting (Some 0) valid_config)
           ctx (reader_of two_files) two_files valid_config valid_client 0
           run.1.1 run.1.2 run.2);
    [reflexivity | reflexivity | reflexivity | by vm_compute | by vm_compute].
Defined.

(** The upload of the second file is refused: the first file is skipped
    all the same, and the answer names the second. *)
Example upload_refused :
  upload (runtime := counting (Some 0) valid_config) (form_request (reader_of two_files)) 0
  = (mkResponse 500 (object [("error", VString "Failed to upload hi.txt: Access Denied")]),
     [ FileRead "/tmp/upload-1" (Normal []);
       FileRead "/tmp/upload-2" (Normal [Byte.x68; Byte.x69]);
       Uploaded valid_client
         {| Bucket := Some "photos"; Key := "2024/hi.txt";
            Body := [Byte.x68; Byte.x69]; ContentType := "text/plain";
            ChecksumMode := "DISABLED" |}
         (Throw access_denied) ],
     1).
Proof. by vm_compute. Qed.

Lemma X11_witness :
  let ctx := form_request (reader_of two_files) in
  let params :=
    {| Bucket := Some "photos"; Key := "2024/hi.txt"; Body := [Byte.x68; Byte.x69];
       ContentType := "text/plain"; ChecksumMode := "DISABLED" |} in
  valid_client = valid_client
  /\ Bucket params = fields two_files !! "bucket"
  /\ ChecksumMode params = "DISABLED"
  /\ length (Body params) <> 0
  /\ exists file,
      In file (default [] (files two_files))
      /\ ContentType params = contentType file
      /\ Key params
         = match fields two_files !! "path" with
           | Some path => path +:+ originalName file
           | None => "undefined" +:+ originalName file
           end.
Proof.
  intros ctx params.
  apply (X11_upload_parameters (runtime := counting None valid_config)
           ctx (reader_of two_files) two_files valid_config valid_client 0
           valid_client params (Normal tt));
    [reflexivity | reflexivity | reflexivity | by vm_compute
    | right; right; left; by vm_compute].
Defined.

Lemma X12_witness :
  let items := [object [("Name", VString "old-logs"); ("isBucket", VBool true)];
                object [("Name", VString "scratch"); ("isBucket", VBool true)]] in
  let run := delete (runtime := counting (Some 0) VNull) (delete_request None items) 0 in
  exists outcomes,
    run.1.2 = bucket_calls valid_client items outcomes
    /\ length outcomes <= length items
    /\ (forall i f e,
           run.1.2 !! i = Some f -> failed_with f e ->
           length run.1.2 = S i
           /\ run.1.1 = mkResponse 500 (object [("error", VString (message e))]))
    /\ (Forall (fun f => succeeded f = true) run.1.2 ->
        length outcomes = length items
        /\ run.1.1 = mkResponse 200
                       (object [("success", VBool true);
                                ("message", VString "Items deleted successfully.")])).
Proof.
  intros items run.
  apply (X12_bucket_only_delete_needs_no_bucket_field (runtime := counting (Some 0) VNull)
           (delete_request None items) (delete_body None items) valid_client items 0
           run.1.1 run.1.2 run.2);
    [reflexivity | by vm_compute | by vm_compute
    | repeat constructor; by vm_compute | by vm_compute].
Defined.

(** The first of two bucket deletions is refused: the second is not
    tried. *)
Example delete_stops_at_refusal :
  delete (runtime := counting (Some 0) VNull)
         (delete_request None
            [object [("Name", VString "old-logs"); ("isBucket", VBool true)];
             object [("Name", VString "scratch"); ("isBucket", VBool true)]]) 0
  = (mkResponse 500 (object [("error", VString "Access Denied")]),
     [ Sent valid_client (DeleteBucketCommand (object [("Bucket", VString "old-logs")]))
            (Throw access_denied) ],
     1).
Proof. by vm_compute. Qed.


Lemma X14_witness :
  let formData :=
    {| fields := {[ "config" := "{ }"; "bucket" := "photos" ]}; files := None |} in
  upload (runtime := counting None valid_config) (form_request (reader_of formData)) 0
  = (mkResponse 200 (object [("success", VBool true);
                             ("message", VString "All files processed.")]),
     [], 0).
Proof.
  intros formData.
  apply (X14_upload_of_no_file_succeeds (runtime := counting None valid_config)
           (form_request (reader_of formData)) (reader_of formData) formData
           valid_config valid_client 0);
    [reflexivity | reflexivity | reflexivity | by vm_compute | reflexivity].
Defined.

Lemma X15_witness :
  let run :=
    delete (runtime := counting None VNull) (delete_request None mixed_items) 0 in
  (status run.1.1 = 200
   /\ get (body run.1.1) "error" = VUndefined
   /\ Forall (fun f => succeeded f = true) run.1.2)
  \/ (exists m : string,
         run.1.1
         = if decide ("/api/delete" = "/api/connect")
           then mkResponse 400 (object [("success", VBool false); ("error", VString m)])
           else mkResponse 500 (object [("error", VString m)])).
Proof.
  intros run.
  apply (X15_error_property_tells_failure (runtime := counting None VNull)
           "/api/delete" (delete (runtime := counting None VNull))
           (delete_request None mixed_items) 0).
  reflexivity.
Defined.
